(** * xo: the lazy line buffer of [xo/main.py]

    A shallow embedding of the [LineWalker] class, of [EditDisplay.save_file]
    and of [re_tab], together with the properties the specification states
    about them.

    Conventions.
    - A Python [str] is a list of Unicode code points ([N]).
    - A Python [int] that may go negative ([focus], a requested position) is a
      [Z]; lengths and cursor offsets are [nat].
    - The walker is a record threaded through a state-and-exception monad: a
      Python exception leaves the walker as it was at the [raise].
    - [self.file] is the text that is still unread, or [None] once the code
      has assigned [self.file = None]. The text is what the Python file
      object delivers in text mode, a list of characters whose line
      terminator is the line feed; what [save_file] writes is text in the
      same sense.
    - A file on disk is a list of bytes. Both [open(name)] and
      [open(name, "w")] are text mode: the bytes are decoded and encoded by
      the text encoding in use, a parameter ([codec]), and line terminators
      are translated, on reading ["\r\n"] and ["\r"] to ["\n"], on writing
      ["\n"] to the line separator of the platform, a parameter as well.
    - [assert] statements are executed.
    - Every edit widget carries a [uid], the model of the identity of the
      Python object; widgets are stored by value and mutated through the
      index at which they sit in [lines]. *)

From Stdlib Require Import List ZArith NArith Arith Bool Lia Permutation.
From Stdlib.Strings Require Byte.
From Equations Require Import Equations.
From Equations.Prop Require Import Logic.
Import ListNotations.

(* ------------------------------------------------------------------ *)
(** ** Strings *)

Module Str.

Abbreviation char := N (only parsing).
Abbreviation str := (list N) (only parsing).

Definition TAB : char := 9%N.
Definition NL : char := 10%N.
Definition CR : char := 13%N.
Definition SP : char := 32%N.

(** [str.isspace] on one code point: the Unicode white space set. *)
Definition isspace (c : char) : bool :=
  ((9 <=? c) && (c <=? 13) || (28 <=? c) && (c <=? 32) || (c =? 133)
   || (c =? 160) || (c =? 5760) || (8192 <=? c) && (c <=? 8202)
   || (c =? 8232) || (c =? 8233) || (c =? 8239) || (c =? 8287)
   || (c =? 12288))%N.

Fixpoint eqb (a b : str) : bool :=
  match a, b with
  | [], [] => true
  | x :: a', y :: b' => N.eqb x y && eqb a' b'
  | _, _ => false
  end.

(** [s[a:b]] for non-negative [a] and [b]. *)
Definition slice (s : str) (a b : nat) : str := firstn (b - a) (skipn a s).

(** [s.rstrip()]: trailing white space removed. *)
Fixpoint rstrip (s : str) : str :=
  match s with
  | [] => []
  | c :: t =>
      match rstrip t with
      | [] => if isspace c then [] else [c]
      | t' => c :: t'
      end
  end.

(** [range(start, stop, step)] for non-negative arguments, [step > 0]. *)
Definition py_range (start stop step : nat) : list nat :=
  map (fun k => start + k * step) (seq 0 ((stop - start + (step - 1)) / step)).

(** [s.expandtabs()] with the default tab size 8; [col] is CPython's
    [line_pos]. *)
Fixpoint expandtabs_from (col : nat) (s : str) : str :=
  match s with
  | [] => []
  | c :: t =>
      if N.eqb c TAB then
        let incr := 8 - col mod 8 in
        repeat SP incr ++ expandtabs_from (col + incr) t
      else
        c :: expandtabs_from (if N.eqb c NL || N.eqb c CR then 0 else S col) t
  end.

Definition expandtabs (s : str) : str := expandtabs_from 0 s.

(** [prefix.join(l)]-style writing used by [save_file]: the lines separated
    by one ["\n"], nothing after the last. *)
Fixpoint join_lines (l : list str) : str :=
  match l with
  | [] => []
  | [x] => x
  | x :: rest => x ++ NL :: join_lines rest
  end.

End Str.

Import Str.

(* ------------------------------------------------------------------ *)
(** ** [re_tab] *)

(** One iteration of the [for i in range(8, len(s), 8)] loop; the loop state
    is the pair [(l, p)]. *)
Definition re_tab_step (s : str) (st : list str * nat) (i : nat)
  : list str * nat :=
  let '(l, p) := st in
  if Str.eqb (slice s (i - 2) i) [SP; SP]
  then (l ++ [rstrip (slice s p i) ++ [TAB]], i)
  else (l, p).

Definition re_tab_loop (s : str) (idx : list nat) (st : list str * nat)
  : list str * nat :=
  fold_left (re_tab_step s) idx st.

Definition re_tab (s : str) : str :=
  let '(l, p) := re_tab_loop s (py_range 8 (length s) 8) ([], 0) in
  if Nat.eqb p 0 then s else concat (l ++ [skipn p s]).

(* ------------------------------------------------------------------ *)
(** ** Python list indexing *)

Module PyList.
Section Ops.
Variable A : Type.

(** The position [l[i]], [l.pop(i)] and [del l[i]] address in a list of
    length [n]: a negative index counts from the end, an index out of range
    is an [IndexError] ([None]). *)
Definition norm (n : nat) (i : Z) : option nat :=
  let j := if (i <? 0)%Z then (i + Z.of_nat n)%Z else i in
  if ((0 <=? j) && (j <? Z.of_nat n))%Z then Some (Z.to_nat j) else None.

Definition get (l : list A) (i : Z) : option A :=
  match norm (length l) i with
  | Some k => nth_error l k
  | None => None
  end.

Definition remove_at (k : nat) (l : list A) : list A :=
  firstn k l ++ skipn (S k) l.

Definition del (l : list A) (i : Z) : option (list A) :=
  match norm (length l) i with
  | Some k => Some (remove_at k l)
  | None => None
  end.

Definition pop (l : list A) (i : Z) : option (A * list A) :=
  match norm (length l) i with
  | Some k =>
      match nth_error l k with
      | Some x => Some (x, remove_at k l)
      | None => None
      end
  | None => None
  end.

(** [l.insert(i, x)] never fails: the index is clamped to [0 .. len(l)]. *)
Definition insert_pos (n : nat) (i : Z) : nat :=
  let j := if (i <? 0)%Z then (i + Z.of_nat n)%Z else i in
  if (j <? 0)%Z then 0 else Nat.min (Z.to_nat j) n.

Definition insert_at (k : nat) (x : A) (l : list A) : list A :=
  firstn k l ++ x :: skipn k l.

Definition insert (l : list A) (i : Z) (x : A) : list A :=
  insert_at (insert_pos (length l) i) x l.

(** The object stored at position [k] replaced by its mutated value. *)
Fixpoint set_at (k : nat) (f : A -> A) (l : list A) : list A :=
  match l, k with
  | [], _ => []
  | x :: t, 0 => f x :: t
  | x :: t, S k' => x :: set_at k' f t
  end.
End Ops.
Arguments norm n i : assert.
Arguments get {A} l i.
Arguments remove_at {A} k l.
Arguments del {A} l i.
Arguments pop {A} l i.
Arguments insert_at {A} k x l.
Arguments insert {A} l i x.
Arguments set_at {A} k f l.
End PyList.

(* ------------------------------------------------------------------ *)
(** ** The edit widget

    [HighlightedEdit] adds nothing to [urwid.Edit] that the buffer relies
    on; of [urwid.Edit] the buffer uses the text, the cursor offset (kept
    inside the text by both setters) and the attribute [original_text] that
    the walker attaches to every widget it creates. *)

Record Edit := mkEdit {
  uid : nat;
  edit_text : str;
  edit_pos : nat;
  original_text : str
}.

Definition set_edit_text (t : str) (e : Edit) : Edit :=
  mkEdit (uid e) t (Nat.min (edit_pos e) (length t)) (original_text e).

Definition set_edit_pos (p : nat) (e : Edit) : Edit :=
  mkEdit (uid e) (edit_text e) (Nat.min p (length (edit_text e)))
         (original_text e).

Definition set_original_text (t : str) (e : Edit) : Edit :=
  mkEdit (uid e) (edit_text e) (edit_pos e) t.

(* ------------------------------------------------------------------ *)
(** ** The walker and its monad *)

Record LineWalker := mkWalker {
  file : option str;
  lines : list Edit;
  focus : Z;
  clipboard : option (list Edit);
  next_uid : nat
}.

Inductive exn := IndexError | AssertionError | AttributeError.

Inductive outcome (A : Type) :=
| Ret (a : A) (w : LineWalker)
| Raise (e : exn) (w : LineWalker).
Arguments Ret {A} a w.
Arguments Raise {A} e w.

Definition M (A : Type) := LineWalker -> outcome A.

Definition ret {A} (a : A) : M A := fun w => Ret a w.
Definition raise {A} (e : exn) : M A := fun w => Raise e w.
Definition bind {A B} (c : M A) (k : A -> M B) : M B :=
  fun w =>
    match c w with
    | Ret a w' => k a w'
    | Raise e w' => Raise e w'
    end.
Definition gets {A} (f : LineWalker -> A) : M A := fun w => Ret (f w) w.
Definition modify (f : LineWalker -> LineWalker) : M unit :=
  fun w => Ret tt (f w).

Declare Scope walker_scope.
Delimit Scope walker_scope with walker.
Notation "x <- c ;; k" := (bind c (fun x => k))
  (at level 61, c at next level, right associativity) : walker_scope.
Notation "c ;; k" := (bind c (fun _ => k))
  (at level 61, right associativity) : walker_scope.
Open Scope walker_scope.

Definition state_of {A} (o : outcome A) : LineWalker :=
  match o with Ret _ w => w | Raise _ w => w end.

Definition with_file (f : option str) (w : LineWalker) : LineWalker :=
  mkWalker f (lines w) (focus w) (clipboard w) (next_uid w).
Definition with_lines (l : list Edit) (w : LineWalker) : LineWalker :=
  mkWalker (file w) l (focus w) (clipboard w) (next_uid w).
Definition with_focus (f : Z) (w : LineWalker) : LineWalker :=
  mkWalker (file w) (lines w) f (clipboard w) (next_uid w).
Definition with_clipboard (c : option (list Edit)) (w : LineWalker)
  : LineWalker :=
  mkWalker (file w) (lines w) (focus w) c (next_uid w).
Definition with_next_uid (n : nat) (w : LineWalker) : LineWalker :=
  mkWalker (file w) (lines w) (focus w) (clipboard w) n.

(** [LineWalker.__init__]: the file is open at its start ([f.seek(0)]). *)
Definition init (content : str) : LineWalker :=
  mkWalker (Some content) [] 0%Z None 0.

(** The constructor call [HighlightedEdit(caption="", edit_text=text, ...)]:
    a fresh object, its cursor at the end of its text. *)
Definition HighlightedEdit (text : str) : M Edit :=
  n <- gets next_uid ;;
  modify (with_next_uid (S n)) ;;
  ret (mkEdit n text (length text) []).

(** [self.lines[i]] *)
Definition index_lines (i : Z) : M Edit :=
  ls <- gets lines ;;
  match PyList.get ls i with
  | Some e => ret e
  | None => raise IndexError
  end.

(** A method call that mutates the object [self.lines[i]]. *)
Definition mutate_line (i : Z) (f : Edit -> Edit) : M unit :=
  ls <- gets lines ;;
  match PyList.norm (length ls) i with
  | Some k => modify (with_lines (PyList.set_at k f ls))
  | None => raise IndexError
  end.

(** [del self.lines[i]] *)
Definition del_line (i : Z) : M unit :=
  ls <- gets lines ;;
  match PyList.del ls i with
  | Some ls' => modify (with_lines ls')
  | None => raise IndexError
  end.

(** [self.lines.pop(i)] *)
Definition pop_line (i : Z) : M Edit :=
  ls <- gets lines ;;
  match PyList.pop ls i with
  | Some (e, ls') => modify (with_lines ls') ;; ret e
  | None => raise IndexError
  end.

(** [self.lines.insert(i, e)] *)
Definition insert_line (i : Z) (e : Edit) : M unit :=
  ls <- gets lines ;;
  modify (with_lines (PyList.insert ls i e)).

(** [file.readline()] on the unread text: the line with its terminator, and
    what is left. *)
Fixpoint readline (s : str) : str * str :=
  match s with
  | [] => ([], [])
  | c :: t =>
      if N.eqb c NL then ([c], t)
      else let (l, r) := readline t in (c :: l, r)
  end.

(** [s[-1:]] *)
Definition last1 (s : str) : str := skipn (length s - 1) s.
(** [s[:-1]] *)
Definition but_last (s : str) : str := firstn (length s - 1) s.

Definition set_focus (f : Z) : M unit := modify (with_focus f).

Definition read_next_line : M str :=
  f <- gets file ;;
  match f with
  | None => raise AttributeError
  | Some content =>
      let (got, rest) := readline content in
      modify (with_file (Some rest)) ;;
      next_line <-
        (if match got with [] => true | _ => false end
            || negb (Str.eqb (last1 got) [NL])
         then modify (with_file None) ;; ret got
         else ret (but_last got)) ;;
      let expanded := expandtabs next_line in
      edit <- HighlightedEdit expanded ;;
      let edit := set_edit_pos 0 edit in
      let edit := set_original_text next_line edit in
      ls <- gets lines ;;
      modify (with_lines (ls ++ [edit])) ;;
      ret next_line
  end.

(** [_get_at_pos]: [None] is the pair [(None, None)]; otherwise the widget
    and its position, which is also the index at which the widget sits. *)
Definition _get_at_pos (pos : Z) : M (option (Edit * Z)) :=
  if (pos <? 0)%Z then ret None
  else
    ls <- gets lines ;;
    if (Z.of_nat (length ls) >? pos)%Z then
      e <- index_lines pos ;; ret (Some (e, pos))
    else
      f <- gets file ;;
      match f with
      | None => ret None
      | Some _ =>
          if negb (pos =? Z.of_nat (length ls))%Z then raise AssertionError
          else
            read_next_line ;;
            e <- index_lines (-1) ;;
            ret (Some (e, pos))
      end.

Definition get_focus : M (option (Edit * Z)) :=
  f <- gets focus ;; _get_at_pos f.
Definition get_next (start_from : Z) : M (option (Edit * Z)) :=
  _get_at_pos (start_from + 1).
Definition get_prev (start_from : Z) : M (option (Edit * Z)) :=
  _get_at_pos (start_from - 1).

Definition split_focus : M unit :=
  fi <- gets focus ;;
  focus_w <- index_lines fi ;;
  let pos := edit_pos focus_w in
  edit <- HighlightedEdit (skipn pos (edit_text focus_w)) ;;
  let edit := set_original_text [] edit in
  mutate_line fi (set_edit_text (firstn pos (edit_text focus_w))) ;;
  let edit := set_edit_pos 0 edit in
  insert_line (fi + 1) edit.

Definition combine_focus_with_prev : M unit :=
  fi <- gets focus ;;
  r <- get_prev fi ;;
  match r with
  | None => ret tt
  | Some (above, apos) =>
      focus_w <- index_lines fi ;;
      mutate_line apos (set_edit_pos (length (edit_text above))) ;;
      mutate_line apos
        (set_edit_text (edit_text above ++ edit_text focus_w)) ;;
      del_line fi ;;
      modify (with_focus (fi - 1))
  end.

Definition combine_focus_with_next : M unit :=
  fi <- gets focus ;;
  r <- get_next fi ;;
  match r with
  | None => ret tt
  | Some (below, _) =>
      focus_w <- index_lines fi ;;
      mutate_line fi
        (set_edit_text (edit_text focus_w ++ edit_text below)) ;;
      del_line (fi + 1)
  end.

Definition get_coords : M (Z * Z) :=
  fi <- gets focus ;;
  e <- index_lines fi ;;
  ret ((fi + 1)%Z, Z.of_nat (edit_pos e + 1)).

Definition cut_to_clipboard : M unit :=
  cb <- gets clipboard ;;
  match cb with
  | None => modify (with_clipboard (Some []))
  | Some _ => ret tt
  end ;;
  fi <- gets focus ;;
  e <- pop_line fi ;;
  cb <- gets clipboard ;;
  modify (with_clipboard
            (Some (match cb with Some c => c | None => [] end ++ [e]))) ;;
  ls <- gets lines ;;
  set_focus (if (fi =? Z.of_nat (length ls))%Z then (fi - 1)%Z else fi).

Fixpoint for_each {A} (l : list A) (body : A -> M unit) : M unit :=
  match l with
  | [] => ret tt
  | x :: t => body x ;; for_each t body
  end.

Definition paste_from_clipboard : M unit :=
  cb <- gets clipboard ;;
  match cb with
  | None => ret tt
  | Some cb =>
      for_each (rev cb) (fun line =>
        newline <- HighlightedEdit (edit_text line) ;;
        let newline := set_original_text [] newline in
        fi <- gets focus ;;
        insert_line fi newline) ;;
      fi <- gets focus ;;
      set_focus (fi + Z.of_nat (length cb))
  end.

Definition clear_clipboard : M unit := modify (with_clipboard None).

(* ------------------------------------------------------------------ *)
(** ** [EditDisplay.save_file] *)

(** The [if]/[else] of the first loop. *)
Definition emitted (edit : Edit) : str :=
  if Str.eqb (expandtabs (original_text edit)) (edit_text edit)
  then original_text edit
  else edit_text edit.

(** What is left to read bounds the second loop. *)
Definition unread (w : LineWalker) : nat :=
  match file w with
  | None => 0
  | Some s => S (length s)
  end.

(** [while walk.file is not None: l.append(walk.read_next_line())] *)
Equations? save_rest (l : list str) (w : LineWalker) : outcome (list str)
  by wf (unread w) lt :=
save_rest l w with inspect (file w) := {
  | @exist None _ => Ret l w
  | @exist (Some s) Hf with inspect (read_next_line w) := {
      | @exist (Ret line w') Hr => save_rest (l ++ [line]) w'
      | @exist (Raise e w') _ => Raise e w' } }.
Proof.
  assert (Hlen : forall t,
             length (fst (readline t)) + length (snd (readline t)) = length t).
  { induction t as [|c t IH]; simpl; [reflexivity|].
    destruct (N.eqb c NL); simpl; [reflexivity|].
    destruct (readline t) as [a b]; simpl in *. lia. }
  specialize (Hlen s).
  unfold read_next_line, bind, gets in Hr. rewrite Hf in Hr.
  unfold unread. rewrite Hf.
  destruct (readline s) as [got rest]. simpl in Hlen.
  destruct got as [|c got']; simpl in Hr, Hlen.
  - injection Hr as _ <-. simpl. lia.
  - destruct (negb (Str.eqb (last1 (c :: got')) [NL])); simpl in Hr;
      injection Hr as _ <-; simpl; lia.
Qed.

(** The list [l] of [save_file] when it reaches [open(self.save_name, "w")]. *)
Definition save_collect : M (list str) :=
  ls <- gets lines ;;
  save_rest (map emitted ls).

(** [save_file] returns what it writes to the output file. *)
Definition save_file : M str :=
  l <- save_collect ;;
  ret (join_lines l).

(* ------------------------------------------------------------------ *)
(** ** Files on disk

    [LineWalker.__init__] opens the source with [open(name)] and
    [save_file] the output with [open(self.save_name, "w")]: text mode in
    both directions. *)

(** The text encoding in use; [None] is [UnicodeDecodeError] or
    [UnicodeEncodeError]. *)
Record codec := mkCodec {
  decode : list Byte.byte -> option str;
  encode : str -> option (list Byte.byte)
}.

(** Reading in text mode: ["\r\n"] and a lone ["\r"] arrive as ["\n"]. *)
Fixpoint universal_newlines (s : str) : str :=
  match s with
  | [] => []
  | c :: t =>
      if N.eqb c CR then
        NL :: match t with
              | d :: t' =>
                  if N.eqb d NL then universal_newlines t'
                  else universal_newlines t
              | [] => []
              end
      else c :: universal_newlines t
  end.

(** Writing in text mode: each ["\n"] is written as [os.linesep]. *)
Definition write_newlines (linesep s : str) : str :=
  flat_map (fun c => if N.eqb c NL then linesep else [c]) s.

(** [LineWalker(name)] over the file whose bytes are [raw]. A file that
    does not decode has no walker: reading it raises. *)
Definition open_file (c : codec) (raw : list Byte.byte)
  : option LineWalker :=
  match decode c raw with
  | Some text => Some (init (universal_newlines text))
  | None => None
  end.

(** The bytes of the file [save_name] once [save_file] has returned and
    the output file, which goes out of scope there, is flushed; [None] if
    [save_file] or the encoding raises. *)
Definition saved_bytes (c : codec) (linesep : str) (w : LineWalker)
  : option (list Byte.byte) :=
  match save_file w with
  | Ret text _ => encode c (write_newlines linesep text)
  | Raise _ _ => None
  end.

(** Latin-1: a byte is the code point of its character. *)
Fixpoint encode_latin1 (s : str) : option (list Byte.byte) :=
  match s with
  | [] => Some []
  | c :: t =>
      match Byte.of_N c, encode_latin1 t with
      | Some b, Some r => Some (b :: r)
      | _, _ => None
      end
  end.

Definition latin1 : codec :=
  mkCodec (fun b => Some (map Byte.to_N b)) encode_latin1.

(* ------------------------------------------------------------------ *)
(** ** The operations the host shell can invoke *)

Inductive op :=
| Get_focus
| Set_focus (position : Z)
| Get_next (start_from : Z)
| Get_prev (start_from : Z)
| Get_at (position : Z)
| Read_next_line
| Split_focus
| Combine_focus_with_prev
| Combine_focus_with_next
| Get_coords
| Cut_to_clipboard
| Paste_from_clipboard
| Clear_clipboard
| Save_file
(** typing in, or moving the cursor of, the widget [self.lines[i]] *)
| Edit_set_text (i : Z) (t : str)
| Edit_set_pos (i : Z) (p : nat).

Definition run (o : op) : M unit :=
  match o with
  | Get_focus => get_focus ;; ret tt
  | Set_focus p => set_focus p
  | Get_next p => get_next p ;; ret tt
  | Get_prev p => get_prev p ;; ret tt
  | Get_at p => _get_at_pos p ;; ret tt
  | Read_next_line => read_next_line ;; ret tt
  | Split_focus => split_focus
  | Combine_focus_with_prev => combine_focus_with_prev
  | Combine_focus_with_next => combine_focus_with_next
  | Get_coords => get_coords ;; ret tt
  | Cut_to_clipboard => cut_to_clipboard
  | Paste_from_clipboard => paste_from_clipboard
  | Clear_clipboard => clear_clipboard
  | Save_file => save_file ;; ret tt
  | Edit_set_text i t => mutate_line i (set_edit_text t)
  | Edit_set_pos i p => mutate_line i (set_edit_pos p)
  end.

(** The walker after an operation, whether it returned or raised. *)
Definition after (o : op) (w : LineWalker) : LineWalker := state_of (run o w).

Definition after_all (ops : list op) (w : LineWalker) : LineWalker :=
  fold_left (fun w o => after o w) ops w.

(** The operations that edit no line: all but typing into a widget,
    splitting, joining, cutting and pasting. *)
Definition navigates (o : op) : bool :=
  match o with
  | Get_focus | Set_focus _ | Get_next _ | Get_prev _ | Get_at _
  | Read_next_line | Get_coords | Clear_clipboard | Save_file
  | Edit_set_pos _ _ => true
  | Split_focus | Combine_focus_with_prev | Combine_focus_with_next
  | Cut_to_clipboard | Paste_from_clipboard | Edit_set_text _ _ => false
  end.

(** Opening the file [raw], running [ops] and saving: the bytes written. *)
Definition resaved (c : codec) (linesep : str) (raw : list Byte.byte)
           (ops : list op) : option (list Byte.byte) :=
  match open_file c raw with
  | Some w => saved_bytes c linesep (after_all ops w)
  | None => None
  end.

Definition is_closed (w : LineWalker) : bool :=
  match file w with None => true | Some _ => false end.

(** Requests for positions [0 .. n-1] in order, as a list box scrolling down
    makes them. *)
Definition materialize (n : nat) : M unit :=
  for_each (seq 0 n) (fun p => _get_at_pos (Z.of_nat p) ;; ret tt).

(** A widget as [read_next_line] creates it for the raw line [line]. *)
Definition loaded (n : nat) (line : str) : Edit :=
  mkEdit n (expandtabs line) 0 line.

(** The walker after [read_next_line] has appended the widget for [line]. *)
Definition appended (f : option str) (line : str) (w : LineWalker)
  : LineWalker :=
  mkWalker f (lines w ++ [loaded (next_uid w) line]) (focus w) (clipboard w)
           (S (next_uid w)).

(** The number of line terminators in a text. *)
Definition count_nl (s : str) : nat := length (filter (N.eqb NL) s).

(* ------------------------------------------------------------------ *)
(** ** Walkers over a source whose lines were never edited *)

(** A widget still shows the expansion of the line it was loaded from. *)
Definition unedited (e : Edit) : Prop :=
  edit_text e = expandtabs (original_text e) /\ ~ In NL (original_text e).

(** The source text the materialized lines came from, each with the
    terminator that [read_next_line] removed. *)
Definition text_read (ls : list Edit) : str :=
  concat (map (fun e => original_text e ++ [NL]) ls).

(** [w] is a walker over the source text [content] in which no line was
    edited, split, joined, cut or pasted. *)
Definition pristine (content : str) (w : LineWalker) : Prop :=
  Forall unedited (lines w)
  /\ match file w with
     | Some rest => content = text_read (lines w) ++ rest
     | None =>
         lines w <> [] /\ content = join_lines (map original_text (lines w))
     end.

(** The computation [c] maintains the walker invariant [I], whether it
    returns or raises. *)
Definition keeps {A} (I : LineWalker -> Prop) (c : M A) : Prop :=
  forall w, I w -> I (state_of (c w)).

(** The source has been closed. *)
Definition closed (w : LineWalker) : Prop := file w = None.

(** The two widgets [split_focus] leaves in place of the widget [e]: [e]
    itself, truncated at its cursor, and a new widget with the remainder. *)
Definition split_left (e : Edit) : Edit :=
  set_edit_text (firstn (edit_pos e) (edit_text e)) e.

Definition split_right (n : nat) (e : Edit) : Edit :=
  set_edit_pos 0
    (set_original_text []
       (mkEdit n (skipn (edit_pos e) (edit_text e))
               (length (skipn (edit_pos e) (edit_text e))) [])).

(* ------------------------------------------------------------------ *)
(** ** Widget identities *)

Definition cb_list (c : option (list Edit)) : list Edit :=
  match c with Some l => l | None => [] end.

(** Every widget the walker holds: in [lines] or on the clipboard. *)
Definition objects (w : LineWalker) : list Edit :=
  lines w ++ cb_list (clipboard w).

Definition uids (w : LineWalker) : list nat := map uid (objects w).

(** Distinct widgets have distinct identities, all of them allocated. *)
Definition wf (w : LineWalker) : Prop :=
  NoDup (uids w) /\ Forall (fun u => u < next_uid w) (uids w).

(** [e] has the identity and the [original_text] of a widget of [w0]. *)
Definition reg (w0 : LineWalker) (e : Edit) : Prop :=
  exists r, In r (objects w0) /\ uid r = uid e
            /\ original_text r = original_text e.

(** If [e] existed in [w0], it still has the [original_text] it had. *)
Definition known (w0 : LineWalker) (e : Edit) : Prop :=
  uid e < next_uid w0 -> reg w0 e.

Definition evolves (w0 w : LineWalker) : Prop :=
  next_uid w0 <= next_uid w
  /\ Forall (known w0) (lines w)
  /\ Forall (known w0) (cb_list (clipboard w)).

(** [c] maintains [evolves w0] and returns values that satisfy [Q]. *)
Definition tracks {A} (w0 : LineWalker) (c : M A) (Q : A -> Prop) : Prop :=
  forall w, evolves w0 w ->
            match c w with
            | Ret a w' => evolves w0 w' /\ Q a
            | Raise _ w' => evolves w0 w'
            end.

Definition known_result (w0 : LineWalker) (r : option (Edit * Z)) : Prop :=
  match r with Some (e, _) => known w0 e | None => True end.

(** A widget method that leaves identity and [original_text] alone. *)
Definition same_identity (f : Edit -> Edit) : Prop :=
  forall e, uid (f e) = uid e /\ original_text (f e) = original_text e.

(* ------------------------------------------------------------------ *)
(** ** Lines that [re_tab] restores *)

(** The fields of a line: the texts that end in a tab, in order, and the
    text after the last tab. *)
Fixpoint split_tabs (s : str) : list str * str :=
  match s with
  | [] => ([], [])
  | c :: t =>
      let (fs, tl) := split_tabs t in
      if N.eqb c TAB then ([] :: fs, tl)
      else
        match fs with
        | [] => ([], c :: tl)
        | f :: fs' => ((c :: f) :: fs', tl)
        end
  end.

Definition build (fs : list str) (tl : str) : str :=
  concat (map (fun f => f ++ [TAB]) fs) ++ tl.

(** Text of one line: no tab and no line break. *)
Definition plain (t : str) : bool :=
  forallb (fun c => negb (N.eqb c TAB || N.eqb c NL || N.eqb c CR)) t.

(** No two spaces end at a tab stop that has a character of the text after
    it; the text starts on a tab stop. *)
Definition no_false_stop (t : str) : bool :=
  forallb (fun i => negb (Str.eqb (slice t (i - 2) i) [SP; SP]))
          (py_range 8 (length t) 8).

Definition ends_in_space (t : str) : bool := isspace (last t 0%N).

(** A field, which starts on a tab stop: its text has no line break, its
    tab spans at least two columns, the character before its tab is not
    white space, and no two spaces of it end at a tab stop. *)
Definition field_ok (f : str) : bool :=
  plain f && (length f mod 8 <=? 6) && negb (ends_in_space f)
  && no_false_stop f.

Definition tail_ok (t : str) : bool := plain t && no_false_stop t.

(** The lines [re_tab] can restore from their expansion. [s] has no line
    feed and no carriage return, and
    - every tab spans at least two columns: it does not stand in the last
      column before a tab stop;
    - the character before a tab, unless it is a tab, is not white space;
    - two spaces that end at a tab stop are followed by nothing: not by a
      character of the text (the [no_false_stop] of a field and of the
      tail), nor by a tab (a field does not end in white space).
    These are not the conditions the specification words, which
    [spec_tab_aligned] follows. *)
Definition restorable (s : str) : bool :=
  let (fs, tl) := split_tabs s in
  forallb field_ok fs && tail_ok tl.

(** A field with the expansion of its tab. *)
Definition pad (f : str) : str := f ++ repeat SP (8 - length f mod 8).

(** The [m] tab stops after column [p]. *)
Fixpoint stops (p m : nat) : list nat :=
  match m with
  | 0 => []
  | S m' => (p + 8) :: stops (p + 8) m'
  end.

(** The number of tab stops the fields span. *)
Definition span (fs : list str) : nat :=
  list_sum (map (fun f => S (length f / 8)) fs).

(* ------------------------------------------------------------------ *)
(** ** Reference functions for the properties of loading *)

(** [content.split("\n")]: the lines of a text, without their
    terminators; a text that ends in a terminator has a last, empty line. *)
Fixpoint split_lines (s : str) : list str :=
  match s with
  | [] => [[]]
  | c :: t =>
      if N.eqb c NL then [] :: split_lines t
      else
        match split_lines t with
        | [] => [[c]]
        | l :: ls => (c :: l) :: ls
        end
  end.

(** The unread text is what is left of [content] after whole lines. *)
Definition unread_suffix (content : str) (f : option str) : Prop :=
  match f with
  | Some rest =>
      exists ls, Forall (fun l => ~ In NL l) ls
                 /\ content = concat (map (fun l => l ++ [NL]) ls) ++ rest
  | None => True
  end.

(** What [materialize k] has reached after [k] requests. *)
Definition loaded_upto (content : str) (k : nat) (w : LineWalker) : Prop :=
  pristine content w
  /\ Forall (fun e => edit_pos e = 0) (lines w)
  /\ focus w = 0%Z /\ clipboard w = None
  /\ match file w with
     | Some _ => length (lines w) = k
     | None => length (lines w) <= k
     end.

(* ------------------------------------------------------------------ *)
(** ** Reference functions for the clipboard properties *)

(** The widget [paste_from_clipboard] creates for a clipboard line. *)
Definition pasted (n : nat) (line : Edit) : Edit :=
  set_original_text []
    (mkEdit n (edit_text line) (length (edit_text line)) []).

(** The widgets one paste creates for the clipboard [cb], in the order in
    which they end up in [lines]; identities are handed out from the last
    clipboard line backwards, starting at [n]. *)
Fixpoint copies (n : nat) (cb : list Edit) : list Edit :=
  match cb with
  | [] => []
  | c :: t => pasted (n + length t) c :: copies n t
  end.

(** [k] presses of the cut key. *)
Definition cut_times (k : nat) : M unit :=
  for_each (repeat tt k) (fun _ => cut_to_clipboard).

(* ------------------------------------------------------------------ *)
(** ** The focus range *)

(** [focus] addresses a line: [0 <= focus < len(lines)]. *)
Definition valid_focus (w : LineWalker) : Prop :=
  (0 <= focus w < Z.of_nat (length (lines w)))%Z.

(** What an operation needs in order to keep the focus on a line: a
    focus move must go to a materialized line, and a cut must leave a
    line behind. *)
Definition keeps_focus_on_line (o : op) (w : LineWalker) : Prop :=
  match o with
  | Set_focus p => (0 <= p < Z.of_nat (length (lines w)))%Z
  | Cut_to_clipboard => 2 <= length (lines w)
  | _ => True
  end.

(* ------------------------------------------------------------------ *)
(** ** [HighlightedEdit.get_text]

    The lexer comes from the pygments library; [get_tokens] stands for
    [self.lexer.get_tokens]. *)

Section GetText.
Variable token : Type.
Variable get_tokens : str -> list (token * str).

Definition get_text (e : Edit) : str * list (token * nat) :=
  let etext := edit_text e in
  let tokens := get_tokens etext in
  let attrib := map (fun ts => (fst ts, length (snd ts))) tokens in
  (etext, attrib).
End GetText.

(* ------------------------------------------------------------------ *)
(** ** The claims as the specification words them

    These follow the specification, not the code, and are compared with the
    code below. *)

(** Save's choice as the specification states it: through [re_tab]. *)
Definition spec_emitted (edit : Edit) : str :=
  if Str.eqb (re_tab (edit_text edit)) (original_text edit)
  then original_text edit
  else edit_text edit.

(** "Tabs occur only at positions where the white space runs align on
    8-column boundaries": every run of white space that holds a tab ends
    on a tab stop. [col] is the column reached and [tab] tells whether the
    run being read holds a tab. *)
Fixpoint runs_aligned_from (col : nat) (tab : bool) (s : str) : bool :=
  match s with
  | [] => negb tab || (col mod 8 =? 0)
  | c :: t =>
      if N.eqb c TAB then runs_aligned_from (col + (8 - col mod 8)) true t
      else if isspace c then
        runs_aligned_from (if N.eqb c NL || N.eqb c CR then 0 else S col)
                          tab t
      else (negb tab || (col mod 8 =? 0)) && runs_aligned_from (S col) false t
  end.

Definition spec_tab_aligned (s : str) : bool := runs_aligned_from 0 false s.

(* ------------------------------------------------------------------ *)
(** ** Basic facts *)

Lemma eqb_eq (a b : str) : Str.eqb a b = true <-> a = b.
Proof.
  revert b. induction a as [|x a IH]; intros [|y b]; simpl;
    try (split; [discriminate|discriminate]); [tauto|].
  rewrite andb_true_iff, N.eqb_eq, IH. split.
  - intros [-> ->]; reflexivity.
  - intros H; injection H as -> ->; auto.
Qed.

Lemma eqb_refl (a : str) : Str.eqb a a = true.
Proof. apply eqb_eq. reflexivity. Qed.

Lemma eqb_neq (a b : str) : Str.eqb a b = false <-> a <> b.
Proof.
  rewrite <- eqb_eq. destruct (Str.eqb a b); split; congruence.
Qed.

Lemma save_rest_eq (l : list str) (w : LineWalker) :
  save_rest l w =
  match file w with
  | None => Ret l w
  | Some _ =>
      match read_next_line w with
      | Ret line w' => save_rest (l ++ [line]) w'
      | Raise e w' => Raise e w'
      end
  end.
Proof.
  funelim (save_rest l w); clear Heqcall.
  - rewrite e. reflexivity.
  - rewrite Hf, Hr. reflexivity.
  - rewrite Hf.
    match goal with R : read_next_line w = Raise _ _ |- _ => rewrite R end.
    reflexivity.
Qed.

(** *** Reading one line *)

Lemma readline_no_nl (s : str) : ~ In NL s -> readline s = (s, []).
Proof.
  induction s as [|c t IH]; simpl; intros H; [reflexivity|].
  destruct (N.eqb_spec c NL) as [->|_]; [tauto|].
  rewrite IH by tauto. reflexivity.
Qed.

Lemma readline_nl (a rest : str) :
  ~ In NL a -> readline (a ++ NL :: rest) = (a ++ [NL], rest).
Proof.
  induction a as [|c t IH]; simpl; intros H; [reflexivity|].
  destruct (N.eqb_spec c NL) as [->|_]; [tauto|].
  rewrite IH by tauto. reflexivity.
Qed.

Lemma split_at_nl (s : str) :
  ~ In NL s \/ exists a rest, s = a ++ NL :: rest /\ ~ In NL a.
Proof.
  induction s as [|c t IH]; [left; simpl; tauto|].
  destruct (N.eqb_spec c NL) as [->|Hc].
  - right. exists [], t. simpl. tauto.
  - destruct IH as [IH|(a & rest & -> & Ha)].
    + left. simpl. intros [E|E]; [congruence|tauto].
    + right. exists (c :: a), rest. split; [reflexivity|].
      simpl. intros [E|E]; [congruence|tauto].
Qed.

Lemma last1_snoc (a : str) (c : char) : last1 (a ++ [c]) = [c].
Proof.
  unfold last1. rewrite length_app. simpl.
  replace (length a + 1 - 1) with (length a + 0) by lia.
  rewrite skipn_app, Nat.add_0_r, skipn_all.
  replace (length a - length a) with 0 by lia. reflexivity.
Qed.

Lemma but_last_snoc (a : str) (c : char) : but_last (a ++ [c]) = a.
Proof.
  unfold but_last. rewrite length_app. simpl.
  replace (length a + 1 - 1) with (length a + 0) by lia.
  rewrite firstn_app, Nat.add_0_r, firstn_all.
  replace (length a - length a) with 0 by lia. simpl. apply app_nil_r.
Qed.

Lemma last1_no_nl (s : str) : ~ In NL s -> Str.eqb (last1 s) [NL] = false.
Proof.
  intros H. apply eqb_neq. intros E.
  destruct (@exists_last _ s) as (a & c & ->).
  - intros ->. discriminate E.
  - rewrite last1_snoc in E. injection E as ->.
    apply H, in_or_app. right. left. reflexivity.
Qed.

Lemma read_next_line_final (w : LineWalker) (s : str) :
  file w = Some s -> ~ In NL s ->
  read_next_line w = Ret s (appended None s w).
Proof.
  intros Hf Hs. unfold read_next_line, bind, gets. rewrite Hf.
  rewrite (readline_no_nl s Hs).
  destruct s as [|c t]; [reflexivity|].
  rewrite (last1_no_nl _ Hs). reflexivity.
Qed.

Lemma read_next_line_more (w : LineWalker) (a rest : str) :
  file w = Some (a ++ NL :: rest) -> ~ In NL a ->
  read_next_line w = Ret a (appended (Some rest) a w).
Proof.
  intros Hf Ha. unfold read_next_line, bind, gets. rewrite Hf.
  rewrite (readline_nl a rest Ha).
  rewrite last1_snoc, but_last_snoc.
  destruct (a ++ [NL]) eqn:E; [destruct a; discriminate E|].
  reflexivity.
Qed.

Lemma read_next_line_closed (w : LineWalker) :
  file w = None -> read_next_line w = Raise AttributeError w.
Proof.
  intros Hf. unfold read_next_line, bind, gets. rewrite Hf. reflexivity.
Qed.

(** *** Python indexing *)

Lemma norm_nonneg (n : nat) (k : nat) :
  k < n -> PyList.norm n (Z.of_nat k) = Some k.
Proof.
  intros H. unfold PyList.norm.
  destruct (Z.ltb_spec (Z.of_nat k) 0); [lia|].
  destruct (Z.leb_spec 0 (Z.of_nat k)); [|lia].
  destruct (Z.ltb_spec (Z.of_nat k) (Z.of_nat n)); [|lia].
  simpl. rewrite Nat2Z.id. reflexivity.
Qed.

Lemma norm_last (n : nat) : 0 < n -> PyList.norm n (-1) = Some (n - 1).
Proof.
  intros H. unfold PyList.norm.
  change (-1 <? 0)%Z with true. cbv iota.
  destruct (Z.leb_spec 0 (-1 + Z.of_nat n)); [|lia].
  destruct (Z.ltb_spec (-1 + Z.of_nat n) (Z.of_nat n)); [|lia].
  cbv [andb]. f_equal. lia.
Qed.

Lemma norm_out (n : nat) (i : Z) :
  (Z.of_nat n <= i)%Z -> PyList.norm n i = None.
Proof.
  intros H. unfold PyList.norm.
  destruct (Z.ltb_spec i 0); [lia|].
  destruct (Z.ltb_spec i (Z.of_nat n)); [lia|].
  rewrite andb_false_r. reflexivity.
Qed.

Lemma get_last (A : Type) (l : list A) (x : A) :
  PyList.get (l ++ [x]) (-1) = Some x.
Proof.
  unfold PyList.get. rewrite norm_last by (rewrite length_app; simpl; lia).
  rewrite length_app. simpl.
  replace (length l + 1 - 1) with (length l) by lia.
  rewrite nth_error_app2 by lia.
  replace (length l - length l) with 0 by lia. reflexivity.
Qed.

Lemma get_nonneg (A : Type) (l : list A) (k : nat) :
  k < length l -> PyList.get l (Z.of_nat k) = nth_error l k.
Proof.
  intros H. unfold PyList.get. rewrite norm_nonneg by assumption.
  reflexivity.
Qed.

(** *** Running monadic code *)

Ltac munfold :=
  cbv beta iota delta
    [bind gets modify ret raise set_focus index_lines mutate_line del_line
     pop_line insert_line HighlightedEdit];
  cbn [lines file focus clipboard next_uid appended
       with_lines with_file with_focus with_clipboard with_next_uid].

(** *** [_get_at_pos], case by case *)

Lemma get_at_negative (w : LineWalker) (pos : Z) :
  (pos < 0)%Z -> _get_at_pos pos w = Ret None w.
Proof.
  intros H. unfold _get_at_pos.
  destruct (Z.ltb_spec pos 0); [reflexivity|lia].
Qed.

Lemma get_at_cached (w : LineWalker) (k : nat) (e : Edit) :
  nth_error (lines w) k = Some e ->
  _get_at_pos (Z.of_nat k) w = Ret (Some (e, Z.of_nat k)) w.
Proof.
  intros H. unfold _get_at_pos.
  assert (Hk : k < length (lines w)) by (apply nth_error_Some; congruence).
  destruct (Z.ltb_spec (Z.of_nat k) 0); [lia|].
  unfold bind, gets.
  destruct (Z.gtb_spec (Z.of_nat (length (lines w))) (Z.of_nat k)); [|lia].
  unfold index_lines, bind, gets.
  rewrite get_nonneg by assumption. rewrite H. reflexivity.
Qed.

Lemma get_at_exhausted (w : LineWalker) (pos : Z) :
  file w = None -> (Z.of_nat (length (lines w)) <= pos)%Z ->
  _get_at_pos pos w = Ret None w.
Proof.
  intros Hf H. unfold _get_at_pos.
  destruct (Z.ltb_spec pos 0); [reflexivity|].
  unfold bind, gets.
  destruct (Z.gtb_spec (Z.of_nat (length (lines w))) pos); [lia|].
  rewrite Hf. reflexivity.
Qed.

Lemma get_at_out_of_order (w : LineWalker) (pos : Z) :
  file w <> None -> (Z.of_nat (length (lines w)) < pos)%Z ->
  _get_at_pos pos w = Raise AssertionError w.
Proof.
  intros Hf H. unfold _get_at_pos.
  destruct (Z.ltb_spec pos 0); [lia|].
  unfold bind, gets.
  destruct (Z.gtb_spec (Z.of_nat (length (lines w))) pos); [lia|].
  destruct (file w); [|congruence].
  destruct (Z.eqb_spec pos (Z.of_nat (length (lines w)))); [lia|].
  reflexivity.
Qed.

Lemma get_at_pull (w : LineWalker) (line : str) (f' : option str) :
  file w <> None ->
  read_next_line w = Ret line (appended f' line w) ->
  _get_at_pos (Z.of_nat (length (lines w))) w =
  Ret (Some (loaded (next_uid w) line, Z.of_nat (length (lines w))))
      (appended f' line w).
Proof.
  intros Hf Hr. unfold _get_at_pos.
  destruct (Z.ltb_spec (Z.of_nat (length (lines w))) 0); [lia|].
  unfold bind at 1. unfold gets at 1.
  destruct (Z.gtb_spec (Z.of_nat (length (lines w)))
              (Z.of_nat (length (lines w)))); [lia|].
  unfold bind at 1. unfold gets at 1.
  destruct (file w); [|congruence].
  rewrite Z.eqb_refl. simpl.
  unfold bind at 1. rewrite Hr.
  munfold. rewrite get_last. reflexivity.
Qed.

(* ------------------------------------------------------------------ *)
(** ** Requests outside the buffer *)

(** C6, as stated, fails: a request beyond the end of the materialized lines
    does not yield "no line" while the source is still open; the [assert]
    of [_get_at_pos] fires. *)
Lemma get_at_beyond_open_not_sentinel :
  ~ (forall (w : LineWalker) (pos : Z),
        (pos < 0 \/ Z.of_nat (length (lines w)) < pos
         \/ (pos = Z.of_nat (length (lines w)) /\ file w = None))%Z ->
        _get_at_pos pos w = Ret None w).
Proof.
  intros H.
  specialize (H (init [97; NL]%N) 1%Z).
  assert (E : _get_at_pos 1 (init [97; NL]%N)
              = Raise AssertionError (init [97; NL]%N)) by reflexivity.
  rewrite E in H.
  assert (C : @Raise (option (Edit * Z)) AssertionError (init [97; NL]%N)
              = Ret None (init [97; NL]%N)).
  { apply H. right. left. simpl. lia. }
  discriminate C.
Qed.

(** C6, amended: a negative position, and a position at or beyond the end
    of the materialized lines once the source is exhausted, yield "no line";
    a position beyond the end while the source is open fails the assertion
    "out of order request?". In all three cases the walker (its lines and
    its focus included) is left as it was. *)
Theorem get_at_outside (w : LineWalker) (pos : Z) :
  (pos < 0 \/ Z.of_nat (length (lines w)) < pos
   \/ (pos = Z.of_nat (length (lines w)) /\ file w = None))%Z ->
  _get_at_pos pos w =
  if (pos <? 0)%Z || is_closed w then Ret None w
  else Raise AssertionError w.
Proof.
  intros H. unfold is_closed.
  destruct (Z.ltb_spec pos 0) as [Hn|Hn]; simpl.
  - apply get_at_negative. assumption.
  - destruct (file w) as [s|] eqn:Hf.
    + apply get_at_out_of_order; [congruence|].
      destruct H as [H|[H|[_ H]]]; [lia|assumption|discriminate].
    + apply get_at_exhausted; [assumption|].
      destruct H as [H|[H|[H _]]]; lia.
Qed.

Lemma get_at_outside_witness :
  let w := init [97; NL]%N in
  (1 < 0 \/ Z.of_nat (length (lines w)) < 1
   \/ (1 = Z.of_nat (length (lines w)) /\ file w = None))%Z
  /\ _get_at_pos 1 w = Raise AssertionError w.
Proof.
  intros w.
  assert (H : (1 < 0 \/ Z.of_nat (length (lines w)) < 1
               \/ (1 = Z.of_nat (length (lines w)) /\ file w = None))%Z).
  { right. left. simpl. lia. }
  split; [exact H|].
  exact (get_at_outside w 1 H).
Defined.

(* ------------------------------------------------------------------ *)
(** ** Cutting the only line *)

(** C10: in a buffer of exactly one line, the focused one,
    [cut_to_clipboard] empties [lines] and sets [focus] to [-1], outside
    [0 <= focus < len(lines)]; [get_coords] then raises [IndexError]
    instead of returning coordinates. *)
Theorem cut_only_line (w : LineWalker) (e : Edit) :
  lines w = [e] ->
  PyList.get (lines w) (focus w) = Some e ->
  exists w',
    cut_to_clipboard w = Ret tt w'
    /\ lines w' = []
    /\ focus w' = (-1)%Z
    /\ ~ (0 <= focus w' < Z.of_nat (length (lines w')))%Z
    /\ get_coords w' = Raise IndexError w'.
Proof.
  intros Hl Hf. destruct w as [f ls fo cb n]. simpl in Hl, Hf. subst ls.
  assert (Hfo : fo = 0%Z \/ fo = (-1)%Z).
  { unfold PyList.get, PyList.norm in Hf. simpl length in Hf.
    destruct (fo <? 0)%Z eqn:E.
    - apply Z.ltb_lt in E.
      destruct ((0 <=? fo + Z.of_nat 1) && (fo + Z.of_nat 1 <? Z.of_nat 1))%Z
        eqn:E2; [|discriminate Hf].
      apply andb_true_iff in E2 as [E2 E3].
      apply Z.leb_le in E2. apply Z.ltb_lt in E3. right. lia.
    - apply Z.ltb_ge in E.
      destruct ((0 <=? fo) && (fo <? Z.of_nat 1))%Z eqn:E2;
        [|discriminate Hf].
      apply andb_true_iff in E2 as [_ E3]. apply Z.ltb_lt in E3.
      left. lia. }
  destruct Hfo as [-> | ->];
    destruct cb as [c|]; eexists; (split; [reflexivity|]);
    simpl; repeat split; try reflexivity; lia.
Qed.

Lemma cut_only_line_witness :
  let w := mkWalker None [loaded 0 [97]%N] 0 None 1 in
  exists w',
    cut_to_clipboard w = Ret tt w'
    /\ lines w' = []
    /\ focus w' = (-1)%Z
    /\ ~ (0 <= focus w' < Z.of_nat (length (lines w')))%Z
    /\ get_coords w' = Raise IndexError w'.
Proof.
  intros w.
  exact (cut_only_line w (loaded 0 [97]%N) eq_refl eq_refl).
Defined.

(* ------------------------------------------------------------------ *)
(** ** Walkers whose lines were never edited *)

Lemma for_each_app (A : Type) (l1 l2 : list A) (body : A -> M unit)
      (w : LineWalker) :
  for_each (l1 ++ l2) body w =
  match for_each l1 body w with
  | Ret _ w' => for_each l2 body w'
  | Raise e w' => Raise e w'
  end.
Proof.
  revert w. induction l1 as [|x l1 IH]; intros w; simpl; [reflexivity|].
  unfold bind. destruct (body x w) as [[] w'|e w']; [apply IH|reflexivity].
Qed.

Lemma join_lines_snoc (l : list str) (x : str) :
  join_lines (l ++ [x]) = concat (map (fun y => y ++ [NL]) l) ++ x.
Proof.
  induction l as [|y l IH]; [reflexivity|].
  change ((y :: l) ++ [x]) with (y :: (l ++ [x])).
  change (join_lines (y :: (l ++ [x]))) with
    (match l ++ [x] with
     | [] => y
     | _ :: _ => y ++ NL :: join_lines (l ++ [x])
     end).
  destruct (l ++ [x]) eqn:E; [destruct l; discriminate E|].
  rewrite IH. simpl. rewrite <- !app_assoc. reflexivity.
Qed.

Lemma text_read_eq (ls : list Edit) :
  text_read ls = concat (map (fun y => y ++ [NL]) (map original_text ls)).
Proof. unfold text_read. rewrite map_map. reflexivity. Qed.

Lemma text_read_snoc (ls : list Edit) (e : Edit) :
  text_read (ls ++ [e]) = text_read ls ++ original_text e ++ [NL].
Proof.
  unfold text_read. rewrite map_app, concat_app. simpl.
  rewrite app_nil_r. reflexivity.
Qed.

Lemma unedited_loaded (n : nat) (line : str) :
  ~ In NL line -> unedited (loaded n line).
Proof. intros H. split; [reflexivity|exact H]. Qed.

Lemma pristine_init (content : str) : pristine content (init content).
Proof. split; [constructor|reflexivity]. Qed.

Lemma pristine_more (content : str) (w : LineWalker) (a rest : str) :
  pristine content w -> file w = Some (a ++ NL :: rest) -> ~ In NL a ->
  pristine content (appended (Some rest) a w).
Proof.
  intros [Hu Hc] Hf Ha. rewrite Hf in Hc. split; simpl.
  - apply Forall_app. split; [exact Hu|].
    constructor; [apply unedited_loaded; exact Ha|constructor].
  - rewrite text_read_snoc. simpl. rewrite Hc.
    rewrite <- !app_assoc. reflexivity.
Qed.

Lemma pristine_final (content : str) (w : LineWalker) (s : str) :
  pristine content w -> file w = Some s -> ~ In NL s ->
  pristine content (appended None s w).
Proof.
  intros [Hu Hc] Hf Hs. rewrite Hf in Hc. split; simpl.
  - apply Forall_app. split; [exact Hu|].
    constructor; [apply unedited_loaded; exact Hs|constructor].
  - split; [destruct (lines w); discriminate|].
    rewrite map_app. simpl. rewrite join_lines_snoc, <- text_read_eq.
    exact Hc.
Qed.

Lemma pristine_focus (content : str) (w : LineWalker) (f : Z) :
  pristine content w -> pristine content (with_focus f w).
Proof. intros H. exact H. Qed.

Lemma pristine_clipboard (content : str) (w : LineWalker)
      (c : option (list Edit)) :
  pristine content w -> pristine content (with_clipboard c w).
Proof. intros H. exact H. Qed.

(** What [read_next_line] does to an open walker. *)
Lemma read_next_line_cases (w : LineWalker) (s : str) :
  file w = Some s ->
  (~ In NL s /\ read_next_line w = Ret s (appended None s w))
  \/ (exists a rest, s = a ++ NL :: rest /\ ~ In NL a
        /\ read_next_line w = Ret a (appended (Some rest) a w)).
Proof.
  intros Hf. destruct (split_at_nl s) as [Hs|(a & rest & -> & Ha)].
  - left. split; [exact Hs|]. apply read_next_line_final; assumption.
  - right. exists a, rest. repeat split; try assumption.
    apply read_next_line_more; assumption.
Qed.

Lemma pristine_read_next_line (content : str) (w : LineWalker) :
  pristine content w -> pristine content (state_of (read_next_line w)).
Proof.
  intros H. destruct (file w) as [s|] eqn:Hf.
  - destruct (read_next_line_cases w s Hf)
      as [[Hs ->]|(a & rest & -> & Ha & ->)]; simpl.
    + apply pristine_final with (s := s); assumption.
    + apply pristine_more; assumption.
  - rewrite read_next_line_closed by assumption. exact H.
Qed.

(** The walker after [_get_at_pos]: as before, or one line longer. *)
Lemma get_at_state (w : LineWalker) (pos : Z) :
  state_of (_get_at_pos pos w) = w
  \/ (pos = Z.of_nat (length (lines w)) /\ file w <> None
      /\ state_of (_get_at_pos pos w) = state_of (read_next_line w)).
Proof.
  destruct (Z.ltb_spec pos 0) as [Hn|Hn].
  - left. rewrite get_at_negative by assumption. reflexivity.
  - destruct (Z.ltb_spec pos (Z.of_nat (length (lines w)))) as [Hc|Hc].
    + left. destruct (nth_error (lines w) (Z.to_nat pos)) as [e|] eqn:E.
      * rewrite <- (Z2Nat.id pos) by assumption.
        rewrite (get_at_cached w _ e E). reflexivity.
      * apply nth_error_None in E. lia.
    + destruct (file w) as [s|] eqn:Hf.
      * destruct (Z.eq_dec pos (Z.of_nat (length (lines w)))) as [->|Hne].
        -- right. split; [reflexivity|]. split; [congruence|].
           destruct (read_next_line_cases w s Hf)
             as [[Hs Hr]|(a & rest & -> & Ha & Hr)];
             rewrite (get_at_pull w _ _ ltac:(congruence) Hr), Hr;
             reflexivity.
        -- left. rewrite get_at_out_of_order; [reflexivity|congruence|lia].
      * left. rewrite get_at_exhausted by (assumption || lia). reflexivity.
Qed.

Lemma pristine_get_at (content : str) (w : LineWalker) (pos : Z) :
  pristine content w -> pristine content (state_of (_get_at_pos pos w)).
Proof.
  intros H. destruct (get_at_state w pos) as [->|(_ & _ & ->)];
    [exact H|apply pristine_read_next_line; exact H].
Qed.

(* ------------------------------------------------------------------ *)
(** ** Saving *)

Lemma unread_appended_more (w : LineWalker) (a rest : str) :
  file w = Some (a ++ NL :: rest) ->
  unread (appended (Some rest) a w) < unread w.
Proof.
  intros Hf. unfold unread. rewrite Hf. simpl.
  rewrite length_app. simpl. lia.
Qed.

(** The second loop of [save_file] always terminates normally: it appends
    the lines it pulls and leaves the source closed. *)
Lemma save_rest_total (n : nat) :
  forall (w : LineWalker) (l : list str),
    unread w <= n ->
    exists rest w',
      save_rest l w = Ret (l ++ rest) w' /\ file w' = None.
Proof.
  induction n as [|n IH]; intros w l Hn; rewrite save_rest_eq.
  - unfold unread in Hn. destruct (file w) eqn:Hf; [lia|].
    exists [], w. rewrite app_nil_r. auto.
  - destruct (file w) as [s|] eqn:Hf.
    + destruct (read_next_line_cases w s Hf)
        as [[Hs ->]|(a & rest & -> & Ha & ->)].
      * rewrite save_rest_eq. simpl. exists [s]. eexists. auto.
      * pose proof (unread_appended_more w a rest Hf) as Hlt.
        assert (Hle : unread (appended (Some rest) a w) <= n)
          by (apply Nat.lt_succ_r; eapply Nat.lt_le_trans; eassumption).
        destruct (IH (appended (Some rest) a w) (l ++ [a]) Hle)
          as (r & w' & E & Hc).
        exists (a :: r), w'. cbv beta iota. rewrite E, <- app_assoc. auto.
    + exists [], w. rewrite app_nil_r. auto.
Qed.

Lemma emitted_cases (e : Edit) :
  (expandtabs (original_text e) = edit_text e
   /\ emitted e = original_text e)
  \/ (expandtabs (original_text e) <> edit_text e
      /\ emitted e = edit_text e).
Proof.
  unfold emitted.
  destruct (Str.eqb (expandtabs (original_text e)) (edit_text e)) eqn:E.
  - left. apply eqb_eq in E. auto.
  - right. apply eqb_neq in E. auto.
Qed.

(** C1, as stated, fails: the line ["\t"], loaded and left alone, is
    written back as ["\t"], although [re_tab] of its eight displayed spaces
    is not ["\t"]. *)
Lemma save_test_is_not_re_tab :
  ~ (forall w : LineWalker,
        exists rest w',
          save_collect w = Ret (map spec_emitted (lines w) ++ rest) w').
Proof.
  intros H.
  destruct (H (state_of (_get_at_pos 0 (init [TAB]))))
    as (rest & w' & E).
  vm_compute in E. discriminate E.
Qed.

(** C1, amended: [save_file] never fails, and its output list starts with
    one entry per materialized line, in order: [original_text] verbatim
    exactly when [original_text.expandtabs()] equals the current
    [edit_text], the current [edit_text] otherwise. The test is this
    equality of the expansion, neither [re_tab] nor raw string equality. *)
Theorem save_emits (w : LineWalker) :
  exists rest w',
    save_collect w = Ret (map emitted (lines w) ++ rest) w'
    /\ Forall2
         (fun e out =>
            (expandtabs (original_text e) = edit_text e
             /\ out = original_text e)
            \/ (expandtabs (original_text e) <> edit_text e
                /\ out = edit_text e))
         (lines w) (map emitted (lines w)).
Proof.
  destruct (save_rest_total (unread w) w (map emitted (lines w)) (le_n _))
    as (rest & w' & E & _).
  exists rest, w'. split; [exact E|].
  clear E. induction (lines w) as [|e ls IH]; simpl; constructor;
    [apply emitted_cases|exact IH].
Qed.

Lemma emitted_unedited (e : Edit) : unedited e -> emitted e = original_text e.
Proof.
  intros [H _]. unfold emitted. rewrite H, eqb_refl. reflexivity.
Qed.

Lemma save_rest_pristine (content : str) (n : nat) :
  forall w : LineWalker,
    unread w <= n -> pristine content w ->
    exists w',
      save_rest (map original_text (lines w)) w
      = Ret (map original_text (lines w')) w'
      /\ pristine content w' /\ file w' = None.
Proof.
  induction n as [|n IH]; intros w Hn Hp; rewrite save_rest_eq.
  - unfold unread in Hn. destruct (file w) eqn:Hf; [lia|].
    exists w. auto.
  - destruct (file w) as [s|] eqn:Hf.
    + destruct (read_next_line_cases w s Hf)
        as [[Hs ->]|(a & rest & -> & Ha & ->)].
      * rewrite save_rest_eq. simpl. exists (appended None s w).
        split; [|split].
        -- simpl. rewrite map_app. reflexivity.
        -- apply pristine_final; assumption.
        -- reflexivity.
      * pose proof (unread_appended_more w a rest Hf) as Hlt.
        assert (Hle : unread (appended (Some rest) a w) <= n)
          by (apply Nat.lt_succ_r; eapply Nat.lt_le_trans; eassumption).
        destruct (IH (appended (Some rest) a w) Hle
                    (pristine_more content w a rest Hp Hf Ha))
          as (w' & E & Hp' & Hc).
        exists w'. split; [|auto].
        cbv beta iota. rewrite <- E. simpl. rewrite map_app. reflexivity.
    + exists w. auto.
Qed.

Lemma save_collect_pristine (content : str) (w : LineWalker) :
  pristine content w ->
  exists w',
    save_collect w = Ret (map original_text (lines w')) w'
    /\ pristine content w' /\ file w' = None.
Proof.
  intros Hp. unfold save_collect, bind, gets.
  replace (map emitted (lines w)) with (map original_text (lines w)).
  - apply save_rest_pristine with (n := unread w); [lia|exact Hp].
  - destruct Hp as [Hu _]. induction Hu as [|e ls He _ IH]; simpl;
      [reflexivity|]. rewrite emitted_unedited by exact He. f_equal. exact IH.
Qed.

Lemma pristine_originals (content : str) (w : LineWalker) :
  pristine content w ->
  Forall (fun x => ~ In NL x) (map original_text (lines w)).
Proof.
  intros [Hu _]. apply Forall_map.
  eapply Forall_impl; [|exact Hu]. intros e [_ H]. exact H.
Qed.

Lemma index_lines_state (A : Type) (i : Z) (w : LineWalker) :
  state_of (index_lines i w) = w.
Proof.
  unfold index_lines, bind, gets.
  destruct (PyList.get (lines w) i); reflexivity.
Qed.

Lemma state_of_then_ret (A : Type) (c : M A) (w : LineWalker) :
  state_of ((c ;; ret tt) w) = state_of (c w).
Proof. unfold bind. destruct (c w); reflexivity. Qed.

(** Moving the cursor of a widget changes neither of its texts. *)
Lemma set_pos_texts (k p : nat) (ls : list Edit) :
  (Forall unedited ls ->
   Forall unedited (PyList.set_at k (set_edit_pos p) ls))
  /\ map original_text (PyList.set_at k (set_edit_pos p) ls)
     = map original_text ls
  /\ text_read (PyList.set_at k (set_edit_pos p) ls) = text_read ls.
Proof.
  revert k. induction ls as [|e ls IH]; intros k.
  - destruct k; cbn [PyList.set_at]; repeat split; intros; constructor.
  - destruct k as [|k]; cbn [PyList.set_at].
    + repeat split. intros H. inversion H; subst. constructor; assumption.
    + destruct (IH k) as (IH1 & IH2 & IH3). repeat split.
      * intros H. inversion H; subst. constructor; auto.
      * cbn [map]. rewrite IH2. reflexivity.
      * unfold text_read in *. cbn [map concat]. rewrite IH3. reflexivity.
Qed.

Lemma pristine_set_pos (content : str) (i : Z) (p : nat) (w : LineWalker) :
  pristine content w ->
  pristine content (state_of (mutate_line i (set_edit_pos p) w)).
Proof.
  intros [Hu Hf]. unfold mutate_line, bind, gets.
  destruct (PyList.norm (length (lines w)) i) as [k|]; [|split; assumption].
  destruct (set_pos_texts k p (lines w)) as (H1 & H2 & H3).
  unfold modify, with_lines, pristine. cbn [state_of lines file].
  split; [apply H1, Hu|].
  destruct (file w) as [rest|].
  - rewrite H3. exact Hf.
  - rewrite H2. destruct Hf as [Hne Hc]. split; [|exact Hc].
    intros E. rewrite E in H2. destruct (lines w); [auto|discriminate H2].
Qed.

Lemma pristine_after (content : str) (o : op) (w : LineWalker) :
  navigates o = true -> pristine content w -> pristine content (after o w).
Proof.
  intros Hn Hp. unfold after.
  destruct o; try discriminate Hn; simpl;
    rewrite ?state_of_then_ret.
  - apply pristine_get_at; exact Hp.
  - exact Hp.
  - apply pristine_get_at; exact Hp.
  - apply pristine_get_at; exact Hp.
  - apply pristine_get_at; exact Hp.
  - apply pristine_read_next_line; exact Hp.
  - unfold get_coords, bind, gets.
    pose proof (index_lines_state unit (focus w) w) as E.
    destruct (index_lines (focus w) w); simpl in *; subst; exact Hp.
  - exact Hp.
  - destruct (save_collect_pristine content w Hp) as (w' & E & Hp' & _).
    unfold save_file, bind. rewrite E. exact Hp'.
  - apply pristine_set_pos; exact Hp.
Qed.

Lemma pristine_after_all (content : str) (ops : list op) :
  forall w : LineWalker,
    forallb navigates ops = true -> pristine content w ->
    pristine content (after_all ops w).
Proof.
  induction ops as [|o ops IH]; intros w Hn Hp; [exact Hp|].
  simpl in Hn. apply andb_true_iff in Hn as [Ho Hn].
  apply IH; [exact Hn|apply pristine_after; assumption].
Qed.

(** At the level of the text that the file object delivers and accepts:
    after any run of operations that edit no line, [save_file] writes the
    text it was opened on. *)
Lemma save_text_round_trip (content : str) (ops : list op) :
  forallb navigates ops = true ->
  exists l w',
    save_collect (after_all ops (init content)) = Ret l w'
    /\ Forall (fun x => ~ In NL x) l
    /\ join_lines l = content
    /\ save_file (after_all ops (init content)) = Ret content w'.
Proof.
  intros Hn.
  pose proof (pristine_after_all content ops (init content) Hn
                (pristine_init content)) as Hp.
  destruct (save_collect_pristine content _ Hp) as (w' & E & Hp' & Hc).
  exists (map original_text (lines w')), w'.
  assert (J : join_lines (map original_text (lines w')) = content).
  { destruct Hp' as [_ Hf]. rewrite Hc in Hf. symmetry. apply Hf. }
  repeat split.
  - exact E.
  - apply pristine_originals with (content := content). exact Hp'.
  - exact J.
  - unfold save_file, bind. rewrite E. unfold ret. rewrite J. reflexivity.
Qed.

Lemma universal_newlines_id (s : str) :
  ~ In CR s -> universal_newlines s = s.
Proof.
  induction s as [|c t IH]; intros H; [reflexivity|].
  cbn [universal_newlines].
  destruct (N.eqb_spec c CR) as [->|_]; [exfalso; apply H; left; reflexivity|].
  rewrite IH; [reflexivity|]. intros Hin. apply H. right. exact Hin.
Qed.

Lemma write_newlines_lf (s : str) : write_newlines [NL] s = s.
Proof.
  unfold write_newlines. induction s as [|c t IH]; [reflexivity|].
  cbn [flat_map]. rewrite IH.
  destruct (N.eqb_spec c NL) as [->|_]; reflexivity.
Qed.

(** C2, as stated, fails: the file is read and written in text mode. A
    source whose lines end in ["\r\n"], or in a lone ["\r"], is saved with
    ["\n"] in their place; and where the line separator of the platform is
    ["\r\n"], a source whose lines end in ["\n"] is saved with ["\r\n"].
    No operation runs between opening and saving. *)
Lemma save_translates_newlines :
  let a_crlf_b := [Byte.x61; Byte.x0d; Byte.x0a; Byte.x62] in
  let a_cr_b := [Byte.x61; Byte.x0d; Byte.x62] in
  let a_lf_b := [Byte.x61; Byte.x0a; Byte.x62] in
  (resaved latin1 [NL] a_crlf_b [] = Some a_lf_b
   /\ resaved latin1 [NL] a_crlf_b [] <> Some a_crlf_b)
  /\ (resaved latin1 [NL] a_cr_b [] = Some a_lf_b
      /\ resaved latin1 [NL] a_cr_b [] <> Some a_cr_b)
  /\ (resaved latin1 [CR; NL] a_lf_b [] = Some a_crlf_b
      /\ resaved latin1 [CR; NL] a_lf_b [] <> Some a_lf_b).
Proof.
  repeat split; try (vm_compute; reflexivity); vm_compute; discriminate.
Qed.

(** C2, amended: for every source file that the text encoding in use
    decodes, to a text that it encodes back to the bytes of the file (as
    UTF-8 and Latin-1 do with every file they decode) and that holds no
    carriage return, where the line separator of the platform is the line
    feed: after any run of operations that edit no line (lines requested
    or read, the focus or a cursor moved, coordinates queried, the
    clipboard cleared, earlier saves), [save_file] writes exactly the
    bytes of the source. Its lines hold no terminator and are joined by
    single terminators with none after the last, so the output ends with
    a terminator exactly when the source did. *)
Theorem save_round_trip (c : codec) (raw : list Byte.byte) (text : str)
        (ops : list op) :
  decode c raw = Some text ->
  encode c text = Some raw ->
  ~ In CR text ->
  forallb navigates ops = true ->
  exists w l w',
    open_file c raw = Some w
    /\ save_collect (after_all ops w) = Ret l w'
    /\ Forall (fun x => ~ In NL x) l
    /\ join_lines l = text
    /\ saved_bytes c [NL] (after_all ops w) = Some raw
    /\ resaved c [NL] raw ops = Some raw.
Proof.
  intros Hd He Hcr Hn.
  destruct (save_text_round_trip text ops Hn) as (l & w' & E & Hl & J & S).
  assert (Ho : open_file c raw = Some (init text)).
  { unfold open_file. rewrite Hd, universal_newlines_id by exact Hcr.
    reflexivity. }
  assert (Hs : saved_bytes c [NL] (after_all ops (init text)) = Some raw).
  { unfold saved_bytes. rewrite S, write_newlines_lf. exact He. }
  exists (init text), l, w'. repeat split; try assumption.
  unfold resaved. rewrite Ho. exact Hs.
Qed.

Lemma save_round_trip_witness :
  let raw := [Byte.x64; Byte.x65; Byte.x66; Byte.x0a; Byte.x09; Byte.x70;
              Byte.x0a; Byte.xe9; Byte.x6e; Byte.x64] in
  let text := [100; 101; 102; NL; TAB; 112; NL; 233; 110; 100]%N in
  let ops := [Get_focus; Get_next 0; Edit_set_pos 0 2; Set_focus 1;
              Read_next_line; Get_coords] in
  decode latin1 raw = Some text
  /\ encode latin1 text = Some raw
  /\ ~ In CR text
  /\ forallb navigates ops = true
  /\ exists w l w',
       open_file latin1 raw = Some w
       /\ save_collect (after_all ops w) = Ret l w'
       /\ Forall (fun x => ~ In NL x) l
       /\ join_lines l = text
       /\ saved_bytes latin1 [NL] (after_all ops w) = Some raw
       /\ resaved latin1 [NL] raw ops = Some raw.
Proof.
  intros raw text ops.
  assert (Hcr : ~ In CR text).
  { intros H. cbn [In text] in H.
    repeat (destruct H as [H|H]; [discriminate H|]). exact H. }
  split; [reflexivity|]. split; [reflexivity|].
  split; [exact Hcr|]. split; [reflexivity|].
  exact (save_round_trip latin1 raw text ops eq_refl eq_refl Hcr eq_refl).
Defined.

(* ------------------------------------------------------------------ *)
(** ** The line after a final terminator *)

Lemma count_nl_app (a b : str) : count_nl (a ++ b) = count_nl a + count_nl b.
Proof. unfold count_nl. rewrite filter_app, length_app. reflexivity. Qed.

Lemma count_nl_none (s : str) : ~ In NL s -> count_nl s = 0.
Proof.
  unfold count_nl. induction s as [|c t IH]; cbn [filter In]; intros H;
    [reflexivity|].
  destruct (N.eqb_spec NL c) as [E|_]; [exfalso; apply H; left; auto|].
  apply IH. tauto.
Qed.

Lemma count_nl_some (s : str) : In NL s -> 0 < count_nl s.
Proof.
  unfold count_nl. induction s as [|c t IH]; cbn [filter In]; intros H;
    [tauto|].
  destruct (N.eqb_spec NL c) as [_|E]; cbn [length]; [lia|].
  apply IH. destruct H; [congruence|assumption].
Qed.

Lemma count_nl_text_read (ls : list Edit) :
  Forall unedited ls -> count_nl (text_read ls) = length ls.
Proof.
  induction 1 as [|e ls [_ He] _ IH]; [reflexivity|].
  unfold text_read in *. simpl. rewrite !count_nl_app, IH.
  rewrite (count_nl_none _ He). reflexivity.
Qed.

Lemma materialize_succ (k : nat) (w : LineWalker) :
  materialize (S k) w =
  match materialize k w with
  | Ret _ w' => (_get_at_pos (Z.of_nat k) ;; ret tt) w'
  | Raise e w' => Raise e w'
  end.
Proof.
  unfold materialize. rewrite seq_S, for_each_app. simpl.
  destruct (for_each (seq 0 k) _ w) as [[] w'|e w']; [|reflexivity].
  unfold bind. destruct (_get_at_pos (Z.of_nat k) w'); reflexivity.
Qed.

(** Scrolling down over lines that end in a terminator keeps the source
    open. *)
Lemma materialize_open (content : str) (k : nat) :
  k <= count_nl content ->
  exists w,
    materialize k (init content) = Ret tt w
    /\ length (lines w) = k
    /\ pristine content w
    /\ exists rest, file w = Some rest /\ count_nl content = k + count_nl rest.
Proof.
  induction k as [|k IH]; intros Hk.
  - exists (init content). repeat split; try constructor.
    exists content. auto.
  - destruct IH as (w & Hm & Hlen & Hp & rest & Hf & Hc); [lia|].
    destruct (split_at_nl rest) as [Hr|(a & rest' & -> & Ha)].
    + rewrite (count_nl_none _ Hr) in Hc. lia.
    + pose proof (read_next_line_more w a rest' Hf Ha) as Hr.
      pose proof (get_at_pull w a (Some rest') ltac:(congruence) Hr) as Hg.
      rewrite Hlen in Hg.
      exists (appended (Some rest') a w). split; [|split; [|split]].
      * rewrite materialize_succ, Hm. unfold bind. rewrite Hg. reflexivity.
      * simpl. rewrite length_app. simpl. lia.
      * apply pristine_more; assumption.
      * exists rest'. split; [reflexivity|].
        rewrite Hc, count_nl_app. simpl. unfold count_nl at 2. simpl.
        rewrite (count_nl_none _ Ha). fold (count_nl rest'). lia.
Qed.

(** C9: over a source that ends in a terminator, once every content line
    has been requested the source is still open with nothing left to read;
    the next request, one past the last content line, is not answered by
    "no line": it appends a widget whose [edit_text] and [original_text]
    are both empty, returns it, and closes the source. *)
Theorem empty_line_after_final_terminator (body : str) :
  exists w,
    materialize (count_nl (body ++ [NL])) (init (body ++ [NL])) = Ret tt w
    /\ length (lines w) = count_nl (body ++ [NL])
    /\ file w = Some []
    /\ exists e w',
         _get_at_pos (Z.of_nat (count_nl (body ++ [NL]))) w
         = Ret (Some (e, Z.of_nat (count_nl (body ++ [NL])))) w'
         /\ edit_text e = []
         /\ original_text e = []
         /\ lines w' = lines w ++ [e]
         /\ file w' = None.
Proof.
  destruct (materialize_open (body ++ [NL]) (count_nl (body ++ [NL]))
              (le_n _))
    as (w & Hm & Hlen & Hp & rest & Hf & Hc).
  assert (Hrest : rest = []).
  { assert (Hz : count_nl rest = 0) by lia.
    destruct Hp as [_ Hp]. rewrite Hf in Hp.
    destruct rest as [|c0 r0]; [reflexivity|exfalso].
    destruct (@exists_last _ (c0 :: r0)) as (r & c & E); [discriminate|].
    rewrite E, app_assoc in Hp. apply app_inj_tail in Hp as [_ <-].
    assert (0 < count_nl (c0 :: r0)); [|lia].
    apply count_nl_some. rewrite E. apply in_or_app. right. left.
    reflexivity. }
  subst rest.
  exists w. repeat split; try assumption.
  pose proof (read_next_line_final w [] Hf (fun H => H)) as Hr.
  pose proof (get_at_pull w [] None ltac:(congruence) Hr) as Hg.
  rewrite Hlen in Hg.
  exists (loaded (next_uid w) []), (appended None [] w).
  repeat split. exact Hg.
Qed.

(* ------------------------------------------------------------------ *)
(** ** Invariants of monadic code *)

Section Keeps.
Variable I : LineWalker -> Prop.

Lemma keeps_ret (A : Type) (a : A) : keeps I (ret a).
Proof. intros w H. exact H. Qed.

Lemma keeps_raise (A : Type) (e : exn) : keeps I (@raise A e).
Proof. intros w H. exact H. Qed.

Lemma keeps_gets (A : Type) (f : LineWalker -> A) : keeps I (gets f).
Proof. intros w H. exact H. Qed.

Lemma keeps_modify (f : LineWalker -> LineWalker) :
  (forall w, I w -> I (f w)) -> keeps I (modify f).
Proof. intros Hf w H. apply Hf, H. Qed.

Lemma keeps_bind (A B : Type) (c : M A) (k : A -> M B) :
  keeps I c -> (forall a, keeps I (k a)) -> keeps I (bind c k).
Proof.
  intros Hc Hk w H. unfold bind. specialize (Hc w H).
  destruct (c w) as [a w'|e w']; [apply Hk; exact Hc|exact Hc].
Qed.

Lemma keeps_for_each (A : Type) (l : list A) (body : A -> M unit) :
  (forall x, keeps I (body x)) -> keeps I (for_each l body).
Proof.
  intros Hb. induction l as [|x l IH]; simpl.
  - apply keeps_ret.
  - apply keeps_bind; [apply Hb|intros _; exact IH].
Qed.

(** The second loop of [save_file] maintains what [read_next_line] does. *)
Lemma keeps_save_rest :
  keeps I read_next_line -> forall l, keeps I (save_rest l).
Proof.
  intros Hr l w. remember (unread w) as n eqn:Hn.
  assert (Hle : unread w <= n) by (subst n; apply le_n). clear Hn.
  revert w l Hle. induction n as [|n IH]; intros w l Hle H;
    rewrite save_rest_eq.
  - unfold unread in Hle. destruct (file w); [inversion Hle|exact H].
  - destruct (file w) as [s|] eqn:Hf; [|exact H].
    specialize (Hr w H).
    destruct (read_next_line_cases w s Hf)
      as [[Hs E]|(a & rest & -> & Ha & E)]; rewrite E in Hr |- *.
    + rewrite save_rest_eq. exact Hr.
    + apply IH; [|exact Hr].
      apply Nat.lt_succ_r. eapply Nat.lt_le_trans; [|exact Hle].
      apply unread_appended_more. exact Hf.
Qed.
End Keeps.

Ltac keeps_step :=
  match goal with
  | |- keeps _ (bind _ _) => apply keeps_bind; [|intros ?]
  | |- keeps _ (ret _) => apply keeps_ret
  | |- keeps _ (raise _) => apply keeps_raise
  | |- keeps _ (gets _) => apply keeps_gets
  | |- keeps _ (for_each _ _) => apply keeps_for_each; intros ?
  | |- keeps _ (match ?x with _ => _ end) => destruct x
  | |- keeps _ (let (_, _) := ?x in _) => destruct x
  end.

(** *** Nothing reopens a closed source *)

Lemma closed_modify (f : LineWalker -> LineWalker) :
  (forall w, file (f w) = file w) -> keeps closed (modify f).
Proof.
  intros Hf. apply keeps_modify. intros w H. unfold closed in *.
  rewrite Hf. exact H.
Qed.

Ltac closed_auto :=
  repeat first
    [ keeps_step
    | apply closed_modify; intros ?; reflexivity ].

Lemma closed_read_next_line : keeps closed read_next_line.
Proof.
  intros w H. rewrite read_next_line_closed by exact H. exact H.
Qed.

Lemma closed_index_lines (i : Z) : keeps closed (index_lines i).
Proof. unfold index_lines. closed_auto. Qed.

Lemma closed_mutate_line (i : Z) (f : Edit -> Edit) :
  keeps closed (mutate_line i f).
Proof. unfold mutate_line. closed_auto. Qed.

Lemma closed_del_line (i : Z) : keeps closed (del_line i).
Proof. unfold del_line. closed_auto. Qed.

Lemma closed_pop_line (i : Z) : keeps closed (pop_line i).
Proof. unfold pop_line. closed_auto. Qed.

Lemma closed_insert_line (i : Z) (e : Edit) : keeps closed (insert_line i e).
Proof. unfold insert_line. closed_auto. Qed.

Lemma closed_HighlightedEdit (t : str) : keeps closed (HighlightedEdit t).
Proof. unfold HighlightedEdit. closed_auto. Qed.

Lemma closed_get_at (pos : Z) : keeps closed (_get_at_pos pos).
Proof.
  intros w H. destruct (get_at_state w pos) as [->|(_ & Hf & _)];
    [exact H|contradiction].
Qed.

Lemma closed_run (o : op) : keeps closed (run o).
Proof.
  destruct o; unfold run, get_focus, get_next, get_prev, set_focus,
    split_focus, combine_focus_with_prev, combine_focus_with_next,
    get_coords, cut_to_clipboard, paste_from_clipboard, clear_clipboard,
    save_file, save_collect;
    repeat first
      [ apply closed_get_at | apply closed_read_next_line
      | apply closed_index_lines | apply closed_mutate_line
      | apply closed_del_line | apply closed_pop_line
      | apply closed_insert_line | apply closed_HighlightedEdit
      | apply keeps_save_rest
      | keeps_step
      | apply closed_modify; intros ?; reflexivity ].
Qed.

Lemma closed_after_all (ops : list op) (w : LineWalker) :
  closed w -> closed (after_all ops w).
Proof.
  revert w. induction ops as [|o ops IH]; intros w H; [exact H|].
  simpl. apply IH. apply closed_run. exact H.
Qed.

(** C7: [read_next_line] on an open source. If [readline] returns nothing,
    or text that does not end in the terminator, that text is returned as
    read and [self.file] becomes [None] on this very call; otherwise the
    text is one line followed by one terminator, the line is returned
    without it and the source stays open on the rest. Once [self.file] is
    [None] no operation sets it again, every request at or beyond the end
    is answered "no line", and [read_next_line] itself can no longer be
    called. *)
Theorem read_next_line_contract (w : LineWalker) :
  (forall content, file w = Some content ->
     exists got rest,
       readline content = (got, rest)
       /\ content = got ++ rest
       /\ (((got = [] \/ last1 got <> [NL])
            /\ read_next_line w = Ret got (appended None got w))
           \/ (exists line,
                 got = line ++ [NL] /\ ~ In NL line
                 /\ read_next_line w = Ret line (appended (Some rest) line w))))
  /\ (file w = None ->
      (forall ops, file (after_all ops w) = None)
      /\ (forall pos, (Z.of_nat (length (lines w)) <= pos)%Z ->
                      _get_at_pos pos w = Ret None w)
      /\ read_next_line w = Raise AttributeError w).
Proof.
  split.
  - intros content Hf.
    destruct (read_next_line_cases w content Hf)
      as [[Hs E]|(a & rest & -> & Ha & E)].
    + exists content, []. rewrite readline_no_nl by exact Hs.
      rewrite app_nil_r. repeat split. left. split; [|exact E].
      destruct content as [|c t]; [left; reflexivity|right].
      apply eqb_neq, last1_no_nl. exact Hs.
    + exists (a ++ [NL]), rest. rewrite readline_nl by exact Ha.
      rewrite <- app_assoc. repeat split. right. exists a. auto.
  - intros Hf. repeat split.
    + intros ops. apply closed_after_all. exact Hf.
    + intros pos Hp. apply get_at_exhausted; assumption.
    + apply read_next_line_closed. exact Hf.
Qed.

(* ------------------------------------------------------------------ *)
(** ** List operations at a known position *)

Section At.
Variables (A : Type) (pre post : list A) (x : A).

Lemma norm_at (i : Z) :
  i = Z.of_nat (length pre) ->
  PyList.norm (length (pre ++ x :: post)) i = Some (length pre).
Proof.
  intros ->. apply norm_nonneg. rewrite length_app. simpl. lia.
Qed.

Lemma nth_error_at : nth_error (pre ++ x :: post) (length pre) = Some x.
Proof.
  rewrite nth_error_app2 by lia.
  replace (length pre - length pre) with 0 by lia. reflexivity.
Qed.

Lemma set_at_at (f : A -> A) :
  PyList.set_at (length pre) f (pre ++ x :: post) = pre ++ f x :: post.
Proof. induction pre as [|y l IH]; simpl; [reflexivity|]. rewrite IH. reflexivity. Qed.

Lemma remove_at_at : PyList.remove_at (length pre) (pre ++ x :: post) = pre ++ post.
Proof.
  unfold PyList.remove_at.
  rewrite firstn_app, firstn_all, skipn_app.
  replace (length pre - length pre) with 0 by lia.
  rewrite skipn_all2 by lia.
  replace (S (length pre) - length pre) with 1 by lia.
  simpl. rewrite app_nil_r. reflexivity.
Qed.

Lemma insert_at_at :
  PyList.insert_at (length pre) x (pre ++ post) = pre ++ x :: post.
Proof.
  unfold PyList.insert_at.
  rewrite firstn_app, firstn_all, skipn_app, skipn_all.
  replace (length pre - length pre) with 0 by lia.
  simpl. rewrite app_nil_r. reflexivity.
Qed.

Lemma insert_pos_at (i : Z) :
  i = Z.of_nat (length pre) ->
  PyList.insert_pos (length (pre ++ post)) i = length pre.
Proof.
  intros ->. unfold PyList.insert_pos.
  destruct (Z.ltb_spec (Z.of_nat (length pre)) 0) as [H|H]; [lia|].
  cbv zeta. destruct (Z.ltb_spec (Z.of_nat (length pre)) 0); [lia|].
  rewrite Nat2Z.id, length_app. apply Nat.min_l. lia.
Qed.
End At.

(** *** The buffer primitives at a known position *)

Section PrimitivesAt.
Variables (w : LineWalker) (pre post : list Edit) (i : Z).
Hypothesis Hi : i = Z.of_nat (length pre).

Lemma index_lines_at (e : Edit) :
  lines w = pre ++ e :: post -> index_lines i w = Ret e w.
Proof.
  intros Hl. unfold index_lines, bind, gets, PyList.get.
  rewrite Hl, (norm_at _ pre post e i Hi), nth_error_at. reflexivity.
Qed.

Lemma mutate_line_at (e : Edit) (f : Edit -> Edit) :
  lines w = pre ++ e :: post ->
  mutate_line i f w = Ret tt (with_lines (pre ++ f e :: post) w).
Proof.
  intros Hl. unfold mutate_line, bind, gets.
  rewrite Hl, (norm_at _ pre post e i Hi), set_at_at. reflexivity.
Qed.

Lemma del_line_at (e : Edit) :
  lines w = pre ++ e :: post ->
  del_line i w = Ret tt (with_lines (pre ++ post) w).
Proof.
  intros Hl. unfold del_line, bind, gets, PyList.del.
  rewrite Hl, (norm_at _ pre post e i Hi), remove_at_at. reflexivity.
Qed.

Lemma pop_line_at (e : Edit) :
  lines w = pre ++ e :: post ->
  pop_line i w = Ret e (with_lines (pre ++ post) w).
Proof.
  intros Hl. unfold pop_line, bind, gets, PyList.pop.
  rewrite Hl, (norm_at _ pre post e i Hi), nth_error_at, remove_at_at.
  reflexivity.
Qed.

Lemma insert_line_at (e : Edit) :
  lines w = pre ++ post ->
  insert_line i e w = Ret tt (with_lines (pre ++ e :: post) w).
Proof.
  intros Hl. unfold insert_line, bind, gets, modify, PyList.insert.
  rewrite Hl, (insert_pos_at _ pre post i Hi), insert_at_at. reflexivity.
Qed.

Lemma get_at_at (e : Edit) :
  lines w = pre ++ e :: post ->
  _get_at_pos i w = Ret (Some (e, i)) w.
Proof.
  intros Hl. rewrite Hi. apply get_at_cached.
  rewrite Hl. apply nth_error_at.
Qed.
End PrimitivesAt.

Lemma focused_split (w : LineWalker) (e : Edit) :
  (0 <= focus w)%Z ->
  nth_error (lines w) (Z.to_nat (focus w)) = Some e ->
  exists pre post,
    lines w = pre ++ e :: post /\ focus w = Z.of_nat (length pre).
Proof.
  intros H0 Hn. destruct (nth_error_split _ _ Hn) as (pre & post & Hl & Hlen).
  exists pre, post. split; [exact Hl|]. lia.
Qed.

(** *** The buffer primitives on an explicit walker *)

Section Explicit.
Variables (f : option str) (pre post : list Edit) (fo : Z)
          (cb : option (list Edit)) (n : nat).

Lemma index_lines_rec (e : Edit) :
  index_lines (Z.of_nat (length pre)) (mkWalker f (pre ++ e :: post) fo cb n)
  = Ret e (mkWalker f (pre ++ e :: post) fo cb n).
Proof. apply index_lines_at with (pre := pre) (post := post); reflexivity. Qed.

Lemma mutate_line_rec (e : Edit) (g : Edit -> Edit) :
  mutate_line (Z.of_nat (length pre)) g
              (mkWalker f (pre ++ e :: post) fo cb n)
  = Ret tt (mkWalker f (pre ++ g e :: post) fo cb n).
Proof.
  rewrite mutate_line_at with (pre := pre) (post := post) (e := e);
    reflexivity.
Qed.

Lemma del_line_rec (e : Edit) :
  del_line (Z.of_nat (length pre)) (mkWalker f (pre ++ e :: post) fo cb n)
  = Ret tt (mkWalker f (pre ++ post) fo cb n).
Proof.
  rewrite del_line_at with (pre := pre) (post := post) (e := e); reflexivity.
Qed.

Lemma pop_line_rec (e : Edit) :
  pop_line (Z.of_nat (length pre)) (mkWalker f (pre ++ e :: post) fo cb n)
  = Ret e (mkWalker f (pre ++ post) fo cb n).
Proof.
  rewrite pop_line_at with (pre := pre) (post := post) (e := e); reflexivity.
Qed.

Lemma insert_line_rec (e : Edit) :
  insert_line (Z.of_nat (length pre)) e (mkWalker f (pre ++ post) fo cb n)
  = Ret tt (mkWalker f (pre ++ e :: post) fo cb n).
Proof.
  rewrite insert_line_at with (pre := pre) (post := post); reflexivity.
Qed.

Lemma get_at_rec (e : Edit) :
  _get_at_pos (Z.of_nat (length pre)) (mkWalker f (pre ++ e :: post) fo cb n)
  = Ret (Some (e, Z.of_nat (length pre)))
        (mkWalker f (pre ++ e :: post) fo cb n).
Proof.
  apply get_at_at with (pre := pre) (post := post); reflexivity.
Qed.
End Explicit.

Lemma next_index (pre : list Edit) (e : Edit) :
  (Z.of_nat (length pre) + 1)%Z = Z.of_nat (length (pre ++ [e])).
Proof. rewrite length_app. simpl. lia. Qed.

Lemma cons_snoc (pre post : list Edit) (a : Edit) :
  pre ++ a :: post = (pre ++ [a]) ++ post.
Proof. rewrite <- app_assoc. reflexivity. Qed.

Lemma cons_middle (pre post : list Edit) (a b : Edit) :
  pre ++ a :: b :: post = (pre ++ [a]) ++ b :: post.
Proof. rewrite <- app_assoc. reflexivity. Qed.

Ltac mrun :=
  cbv beta iota delta
    [bind gets modify ret raise set_focus HighlightedEdit
     with_lines with_file with_focus with_clipboard with_next_uid];
  cbn [lines file focus clipboard next_uid].

(* ------------------------------------------------------------------ *)
(** ** Splitting and joining *)

Lemma split_focus_at (f : option str) (pre post : list Edit) (e : Edit)
      (cb : option (list Edit)) (n : nat) :
  split_focus (mkWalker f (pre ++ e :: post) (Z.of_nat (length pre)) cb n)
  = Ret tt (mkWalker f (pre ++ split_left e :: split_right n e :: post)
                     (Z.of_nat (length pre)) cb (S n)).
Proof.
  unfold split_focus. mrun.
  rewrite index_lines_rec. mrun.
  rewrite mutate_line_rec. mrun.
  fold (split_left e). fold (split_right n e).
  rewrite (next_index pre (split_left e)), (cons_snoc pre post).
  rewrite insert_line_rec, <- cons_middle. reflexivity.
Qed.

Lemma split_text (n : nat) (e : Edit) :
  edit_text (split_left e) ++ edit_text (split_right n e) = edit_text e.
Proof. apply firstn_skipn. Qed.

Lemma combine_next_at (f : option str) (pre post : list Edit) (a b : Edit)
      (cb : option (list Edit)) (n : nat) :
  combine_focus_with_next
    (mkWalker f (pre ++ a :: b :: post) (Z.of_nat (length pre)) cb n)
  = Ret tt (mkWalker f
              (pre ++ set_edit_text (edit_text a ++ edit_text b) a :: post)
              (Z.of_nat (length pre)) cb n).
Proof.
  unfold combine_focus_with_next, get_next. mrun.
  rewrite (next_index pre a), cons_middle, get_at_rec, <- cons_middle,
    <- (next_index pre a).
  mrun.
  rewrite index_lines_rec. mrun.
  rewrite mutate_line_rec. mrun.
  rewrite (next_index pre (set_edit_text (edit_text a ++ edit_text b) a)),
    cons_middle, del_line_rec, <- cons_snoc.
  reflexivity.
Qed.

Lemma combine_prev_at (f : option str) (pre post : list Edit) (a b : Edit)
      (cb : option (list Edit)) (n : nat) :
  combine_focus_with_prev
    (mkWalker f (pre ++ a :: b :: post) (Z.of_nat (length pre) + 1) cb n)
  = Ret tt (mkWalker f
              (pre ++ set_edit_text (edit_text a ++ edit_text b)
                        (set_edit_pos (length (edit_text a)) a) :: post)
              (Z.of_nat (length pre)) cb n).
Proof.
  unfold combine_focus_with_prev, get_prev. mrun.
  replace (Z.of_nat (length pre) + 1 - 1)%Z with (Z.of_nat (length pre))
    by lia.
  rewrite get_at_rec. mrun.
  rewrite (next_index pre a), cons_middle, index_lines_rec, <- cons_middle,
    <- (next_index pre a).
  mrun.
  rewrite mutate_line_rec. mrun.
  rewrite mutate_line_rec. mrun.
  rewrite (next_index pre (set_edit_text (edit_text a ++ edit_text b)
                             (set_edit_pos (length (edit_text a)) a))),
    cons_middle, del_line_rec, <- cons_snoc.
  reflexivity.
Qed.


Lemma map_text_middle (pre post : list Edit) (e e' : Edit) :
  edit_text e' = edit_text e ->
  map edit_text (pre ++ e' :: post) = map edit_text (pre ++ e :: post).
Proof. intros H. rewrite !map_app. simpl. rewrite H. reflexivity. Qed.

(** C5, as stated, fails for the join with the previous line: right after
    [split_focus] the focus is still on the left half, so
    [combine_focus_with_prev] joins the left half to the line above it (or
    does nothing on the first line) and no line carries the text the
    focused line had before the split. *)
Lemma split_then_join_prev_at_once :
  let w := mkWalker None [mkEdit 0 [120]%N 1 [120]%N;
                          mkEdit 1 [97; 98]%N 1 [97; 98]%N] 1 None 2 in
  exists w1 w2,
    split_focus w = Ret tt w1
    /\ combine_focus_with_prev w1 = Ret tt w2
    /\ map edit_text (lines w2) = [[120; 97]; [98]]%N
    /\ ~ In [97; 98]%N (map edit_text (lines w2)).
Proof.
  intros w. subst w. eexists. eexists.
  split; [vm_compute; reflexivity|].
  split; [vm_compute; reflexivity|].
  split; [reflexivity|].
  simpl. intros [H|[H|[]]]; discriminate H.
Qed.

(** C5, amended: in a buffer with a focused line, [split_focus] followed at
    once by [combine_focus_with_next], or followed by moving the focus down
    to the new line and then [combine_focus_with_prev], gives back the text
    of every line as it was before the split, the focused line included,
    with the focus on the same line; the cursor offset may differ. *)
Theorem split_then_join (w : LineWalker) (e : Edit) :
  (0 <= focus w)%Z ->
  nth_error (lines w) (Z.to_nat (focus w)) = Some e ->
  exists w1,
    split_focus w = Ret tt w1
    /\ (exists w2,
          combine_focus_with_next w1 = Ret tt w2
          /\ map edit_text (lines w2) = map edit_text (lines w)
          /\ nth_error (map edit_text (lines w2)) (Z.to_nat (focus w))
             = Some (edit_text e)
          /\ focus w2 = focus w)
    /\ (exists w2,
          (set_focus (focus w + 1) ;; combine_focus_with_prev) w1 = Ret tt w2
          /\ map edit_text (lines w2) = map edit_text (lines w)
          /\ nth_error (map edit_text (lines w2)) (Z.to_nat (focus w))
             = Some (edit_text e)
          /\ focus w2 = focus w).
Proof.
  intros H0 Hn.
  assert (Ht : nth_error (map edit_text (lines w)) (Z.to_nat (focus w))
               = Some (edit_text e)) by (apply map_nth_error; exact Hn).
  destruct (focused_split w e H0 Hn) as (pre & post & Hl & Hf).
  destruct w as [f ls fo cb n]. simpl in Hl, Hf, Ht |- *. subst ls fo.
  assert (Hm : forall e',
             edit_text e' = edit_text e ->
             map edit_text (pre ++ e' :: post)
             = map edit_text (pre ++ e :: post))
    by (intros e'; apply map_text_middle).
  eexists. split; [apply split_focus_at|]. split.
  - eexists. split; [apply combine_next_at|]. cbn [lines focus].
    rewrite Hm by apply split_text. auto.
  - eexists. split.
    + unfold bind, set_focus, modify. cbv [with_focus].
      cbn [file lines focus clipboard next_uid].
      apply combine_prev_at.
    + cbn [lines focus]. rewrite Hm by apply split_text. auto.
Qed.

Lemma split_then_join_witness :
  let w := mkWalker None [mkEdit 0 [120]%N 1 [120]%N;
                          mkEdit 1 [97; 98]%N 1 [97; 98]%N] 1 None 2 in
  exists w2,
    (split_focus ;; set_focus 2 ;; combine_focus_with_prev) w = Ret tt w2
    /\ map edit_text (lines w2) = [[120]; [97; 98]]%N.
Proof.
  intros w.
  destruct (split_then_join w (mkEdit 1 [97; 98]%N 1 [97; 98]%N)
              ltac:(simpl; lia) eq_refl)
    as (w1 & H1 & _ & w2 & H2 & Hm & _).
  exists w2. split; [|exact Hm].
  unfold bind at 1. rewrite H1. exact H2.
Defined.

(* ------------------------------------------------------------------ *)
(** ** Cutting and pasting *)

Lemma cut_at (f : option str) (pre post : list Edit) (e : Edit)
      (cb : option (list Edit)) (n : nat) :
  cut_to_clipboard
    (mkWalker f (pre ++ e :: post) (Z.of_nat (length pre)) cb n)
  = Ret tt
      (mkWalker f (pre ++ post)
         (if (Z.of_nat (length pre) =? Z.of_nat (length (pre ++ post)))%Z
          then (Z.of_nat (length pre) - 1)%Z else Z.of_nat (length pre))
         (Some (match cb with Some c => c | None => [] end ++ [e])) n).
Proof.
  unfold cut_to_clipboard.
  destruct cb as [c|]; mrun; rewrite pop_line_rec; mrun; reflexivity.
Qed.

Lemma paste_one_at (f : option str) (pre post : list Edit) (e : Edit)
      (n : nat) :
  paste_from_clipboard
    (mkWalker f (pre ++ post) (Z.of_nat (length pre)) (Some [e]) n)
  = Ret tt
      (mkWalker f (pre ++ set_original_text []
                            (mkEdit n (edit_text e) (length (edit_text e)) [])
                       :: post)
         (Z.of_nat (length pre) + 1) (Some [e]) (S n)).
Proof.
  unfold paste_from_clipboard. mrun. simpl rev. unfold for_each. mrun.
  rewrite insert_line_rec. mrun. reflexivity.
Qed.

(** C3, as stated, fails. With a line already on the clipboard, the paste
    that follows a cut inserts both clipboard lines, so the buffer grows
    from two lines to three. And when the last of several lines is cut, the
    focus moves up to the new last line and the paste inserts above it:
    the two lines come back in the opposite order. *)
Lemma cut_then_paste_not_inverse :
  (let w := mkWalker None [loaded 1 [97]%N; loaded 2 [98]%N] 0
                     (Some [loaded 0 [99]%N]) 3 in
   exists w1 w2,
     cut_to_clipboard w = Ret tt w1
     /\ focus w1 = focus w
     /\ paste_from_clipboard w1 = Ret tt w2
     /\ length (lines w) = 2
     /\ length (lines w2) = 3)
  /\ (let w := mkWalker None [loaded 0 [97]%N; loaded 1 [98]%N] 1 None 2 in
      exists w1 w2,
        cut_to_clipboard w = Ret tt w1
        /\ paste_from_clipboard w1 = Ret tt w2
        /\ map edit_text (lines w) = [[97]; [98]]%N
        /\ map edit_text (lines w2) = [[98]; [97]]%N).
Proof.
  split; intros w; subst w; eexists; eexists.
  - split; [vm_compute; reflexivity|]. split; [reflexivity|].
    split; [vm_compute; reflexivity|]. split; reflexivity.
  - split; [vm_compute; reflexivity|].
    split; [vm_compute; reflexivity|]. split; reflexivity.
Qed.

(** C3, amended: in a buffer whose clipboard is absent or empty and whose
    focused line is not the last of several lines, [cut_to_clipboard]
    followed at once by [paste_from_clipboard] gives a buffer with the same
    number of lines and the same text on every line; the clipboard holds
    the cut line after the cut and still holds it after the paste. *)
Theorem cut_then_paste (w : LineWalker) (e : Edit) :
  (clipboard w = None \/ clipboard w = Some []) ->
  (0 <= focus w)%Z ->
  nth_error (lines w) (Z.to_nat (focus w)) = Some e ->
  (focus w + 1 < Z.of_nat (length (lines w)))%Z \/ length (lines w) = 1 ->
  exists w1 w2,
    cut_to_clipboard w = Ret tt w1
    /\ clipboard w1 = Some [e]
    /\ paste_from_clipboard w1 = Ret tt w2
    /\ length (lines w2) = length (lines w)
    /\ map edit_text (lines w2) = map edit_text (lines w)
    /\ clipboard w2 = Some [e].
Proof.
  intros Hcb H0 Hn Hpos.
  destruct (focused_split w e H0 Hn) as (pre & post & Hl & Hf).
  destruct w as [f ls fo cb n]. simpl in Hcb, Hl, Hf, Hpos |- *. subst ls fo.
  assert (Hc : match cb with Some c => c | None => [] end ++ [e] = [e])
    by (destruct Hcb as [->| ->]; reflexivity).
  rewrite cut_at, Hc.
  rewrite length_app in Hpos. simpl in Hpos.
  destruct post as [|p post].
  - assert (pre = []) as -> by (destruct pre; [reflexivity|simpl in Hpos; lia]).
    eexists. eexists. split; [reflexivity|]. split; [reflexivity|].
    split; [vm_compute; reflexivity|]. auto.
  - destruct (Z.eqb_spec (Z.of_nat (length pre))
                (Z.of_nat (length (pre ++ p :: post)))) as [E|_].
    { rewrite length_app in E. simpl in E. lia. }
    eexists. eexists. split; [reflexivity|]. split; [reflexivity|].
    split; [apply paste_one_at|]. cbn [lines clipboard].
    rewrite !length_app, !map_app. auto.
Qed.

Lemma cut_then_paste_witness :
  let w := mkWalker None [loaded 0 [97]%N; loaded 1 [98]%N] 0 None 2 in
  exists w1 w2,
    cut_to_clipboard w = Ret tt w1
    /\ clipboard w1 = Some [loaded 0 [97]%N]
    /\ paste_from_clipboard w1 = Ret tt w2
    /\ length (lines w2) = length (lines w)
    /\ map edit_text (lines w2) = map edit_text (lines w)
    /\ clipboard w2 = Some [loaded 0 [97]%N].
Proof.
  intros w.
  refine (cut_then_paste w (loaded 0 [97]%N) (or_introl eq_refl) _ eq_refl
            (or_introl _)).
  - simpl. lia.
  - simpl. lia.
Defined.

(* ------------------------------------------------------------------ *)
(** ** [original_text] is never rewritten *)

Section ListFacts.
Variables (A : Type) (P : A -> Prop).

Lemma Forall_set_at (k : nat) (f : A -> A) (l : list A) :
  (forall x, P x -> P (f x)) -> Forall P l -> Forall P (PyList.set_at k f l).
Proof.
  intros Hf H. revert k.
  induction H as [|x l Hx Hl IH]; intros [|k]; simpl; constructor; auto.
Qed.

Lemma Forall_remove_at (k : nat) (l : list A) :
  Forall P l -> Forall P (PyList.remove_at k l).
Proof.
  intros H. unfold PyList.remove_at. apply Forall_app. split.
  - rewrite <- (firstn_skipn k l) in H. apply Forall_app in H. apply H.
  - rewrite <- (firstn_skipn (S k) l) in H. apply Forall_app in H. apply H.
Qed.

Lemma Forall_insert_at (k : nat) (x : A) (l : list A) :
  P x -> Forall P l -> Forall P (PyList.insert_at k x l).
Proof.
  intros Hx H. unfold PyList.insert_at.
  rewrite <- (firstn_skipn k l) in H. apply Forall_app in H as [H1 H2].
  apply Forall_app. split; [exact H1|]. constructor; assumption.
Qed.

Lemma Forall_nth_error (k : nat) (x : A) (l : list A) :
  Forall P l -> nth_error l k = Some x -> P x.
Proof.
  intros H Hn. apply nth_error_In in Hn.
  rewrite Forall_forall in H. apply H, Hn.
Qed.
End ListFacts.

Section Tracks.
Variable w0 : LineWalker.

Lemma evolves_refl : evolves w0 w0.
Proof.
  unfold evolves, known, reg, objects. split; [apply le_n|].
  split; apply Forall_forall; intros e He _; exists e;
    (split; [apply in_or_app; auto|auto]).
Qed.

Lemma tracks_ret (A : Type) (a : A) (Q : A -> Prop) :
  Q a -> tracks w0 (ret a) Q.
Proof. intros H w Hw. split; assumption. Qed.

Lemma tracks_raise (A : Type) (e : exn) (Q : A -> Prop) :
  tracks w0 (raise e) Q.
Proof. intros w Hw. exact Hw. Qed.

Lemma tracks_gets (A : Type) (f : LineWalker -> A) (Q : A -> Prop) :
  (forall w, evolves w0 w -> Q (f w)) -> tracks w0 (gets f) Q.
Proof. intros H w Hw. split; [exact Hw|apply H, Hw]. Qed.

Lemma tracks_modify (f : LineWalker -> LineWalker) (Q : unit -> Prop) :
  (forall w, evolves w0 w -> evolves w0 (f w)) -> Q tt ->
  tracks w0 (modify f) Q.
Proof. intros H HQ w Hw. split; [apply H, Hw|exact HQ]. Qed.

Lemma tracks_bind (A B : Type) (c : M A) (k : A -> M B)
      (Q : A -> Prop) (Q' : B -> Prop) :
  tracks w0 c Q -> (forall a, Q a -> tracks w0 (k a) Q') ->
  tracks w0 (bind c k) Q'.
Proof.
  intros Hc Hk w Hw. unfold bind. specialize (Hc w Hw).
  destruct (c w) as [a w'|e w']; [|exact Hc].
  destruct Hc as [Hw' Ha]. apply (Hk a Ha w' Hw').
Qed.

Lemma tracks_weaken (A : Type) (c : M A) (Q Q' : A -> Prop) :
  (forall a, Q a -> Q' a) -> tracks w0 c Q -> tracks w0 c Q'.
Proof.
  intros H Hc w Hw. specialize (Hc w Hw).
  destruct (c w); [destruct Hc; split; auto|exact Hc].
Qed.

Lemma tracks_keeps (A : Type) (c : M A) (Q : A -> Prop) :
  tracks w0 c Q -> keeps (evolves w0) c.
Proof.
  intros Hc w Hw. specialize (Hc w Hw).
  destruct (c w); [apply Hc|exact Hc].
Qed.

Lemma keeps_tracks (A : Type) (c : M A) :
  keeps (evolves w0) c -> tracks w0 c (fun _ => True).
Proof.
  intros Hc w Hw. specialize (Hc w Hw).
  destruct (c w); [split; [exact Hc|exact I]|exact Hc].
Qed.

Lemma tracks_for_each (A : Type) (l : list A) (body : A -> M unit)
      (P : A -> Prop) :
  Forall P l ->
  (forall x, P x -> tracks w0 (body x) (fun _ => True)) ->
  tracks w0 (for_each l body) (fun _ => True).
Proof.
  intros Hl Hb. induction Hl as [|x l Hx _ IH]; simpl.
  - apply tracks_ret. exact I.
  - eapply tracks_bind; [apply Hb, Hx|intros _ _; exact IH].
Qed.

(** *** The primitives *)

Lemma known_same (f : Edit -> Edit) (e : Edit) :
  same_identity f -> known w0 e -> known w0 (f e).
Proof.
  intros Hf He. destruct (Hf e) as [Hu Ho]. unfold known, reg in *.
  rewrite Hu, Ho. exact He.
Qed.

Lemma known_fresh (e : Edit) : next_uid w0 <= uid e -> known w0 e.
Proof. intros H Hlt. lia. Qed.

Lemma tracks_index_lines (i : Z) : tracks w0 (index_lines i) (known w0).
Proof.
  intros w Hw. unfold index_lines, bind, gets, PyList.get.
  destruct (PyList.norm (length (lines w)) i) as [k|]; [|exact Hw].
  destruct (nth_error (lines w) k) as [e|] eqn:E; [|exact Hw].
  split; [exact Hw|]. destruct Hw as (_ & Hl & _).
  exact (Forall_nth_error _ (known w0) k e (lines w) Hl E).
Qed.

Lemma tracks_mutate_line (i : Z) (f : Edit -> Edit) :
  same_identity f -> tracks w0 (mutate_line i f) (fun _ => True).
Proof.
  intros Hf w Hw. unfold mutate_line, bind, gets.
  destruct (PyList.norm (length (lines w)) i) as [k|]; [|exact Hw].
  split; [|exact I]. destruct Hw as (Hn & Hl & Hc).
  split; [exact Hn|]. split; [|exact Hc]. simpl.
  apply Forall_set_at; [|exact Hl]. intros e. apply known_same, Hf.
Qed.

Lemma tracks_del_line (i : Z) : tracks w0 (del_line i) (fun _ => True).
Proof.
  intros w Hw. unfold del_line, bind, gets, PyList.del.
  destruct (PyList.norm (length (lines w)) i) as [k|]; [|exact Hw].
  split; [|exact I]. destruct Hw as (Hn & Hl & Hc).
  split; [exact Hn|]. split; [|exact Hc]. simpl.
  apply Forall_remove_at, Hl.
Qed.

Lemma tracks_pop_line (i : Z) : tracks w0 (pop_line i) (known w0).
Proof.
  intros w Hw. unfold pop_line, bind, gets, PyList.pop.
  destruct (PyList.norm (length (lines w)) i) as [k|]; [|exact Hw].
  destruct (nth_error (lines w) k) as [e|] eqn:E; [|exact Hw].
  destruct Hw as (Hn & Hl & Hc). simpl. split.
  - split; [exact Hn|]. split; [|exact Hc]. apply Forall_remove_at, Hl.
  - exact (Forall_nth_error _ (known w0) k e (lines w) Hl E).
Qed.

Lemma tracks_insert_line (i : Z) (e : Edit) :
  known w0 e -> tracks w0 (insert_line i e) (fun _ => True).
Proof.
  intros He w Hw. unfold insert_line, bind, gets, modify.
  split; [|exact I]. destruct Hw as (Hn & Hl & Hc).
  split; [exact Hn|]. split; [|exact Hc]. simpl.
  apply Forall_insert_at; assumption.
Qed.

Lemma tracks_HighlightedEdit (t : str) :
  tracks w0 (HighlightedEdit t) (fun e => next_uid w0 <= uid e).
Proof.
  intros w Hw. unfold HighlightedEdit, bind, gets, modify, ret.
  destruct Hw as (Hn & Hl & Hc). simpl.
  split; [|exact Hn]. split; [simpl; lia|]. split; assumption.
Qed.

Lemma evolves_appended (f : option str) (line : str) (w : LineWalker) :
  evolves w0 w -> evolves w0 (appended f line w).
Proof.
  intros (Hn & Hl & Hc). split; [simpl; lia|]. split; [|exact Hc]. simpl.
  apply Forall_app. split; [exact Hl|]. constructor; [|constructor].
  apply known_fresh. exact Hn.
Qed.

Lemma evolves_read_next_line : keeps (evolves w0) read_next_line.
Proof.
  intros w Hw. destruct (file w) as [s|] eqn:Hf.
  - destruct (read_next_line_cases w s Hf)
      as [[_ ->]|(a & rest & _ & _ & ->)]; apply evolves_appended, Hw.
  - rewrite read_next_line_closed by exact Hf. exact Hw.
Qed.

Lemma tracks_get_at (pos : Z) : tracks w0 (_get_at_pos pos) (known_result w0).
Proof.
  unfold _get_at_pos. destruct (pos <? 0)%Z.
  - apply tracks_ret. exact I.
  - eapply tracks_bind; [apply tracks_gets with (Q := fun _ => True); auto|].
    intros ls _. destruct (Z.of_nat (length ls) >? pos)%Z.
    + eapply tracks_bind; [apply tracks_index_lines|].
      intros e He. apply tracks_ret. exact He.
    + eapply tracks_bind;
        [apply tracks_gets with (Q := fun _ => True); auto|].
      intros [s|] _; [|apply tracks_ret; exact I].
      destruct (negb _); [apply tracks_raise|].
      eapply tracks_bind; [apply keeps_tracks, evolves_read_next_line|].
      intros _ _. eapply tracks_bind; [apply tracks_index_lines|].
      intros e He. apply tracks_ret. exact He.
Qed.

Lemma tracks_gets_any (A : Type) (f : LineWalker -> A) :
  tracks w0 (gets f) (fun _ => True).
Proof. apply tracks_gets. intros; exact I. Qed.

Lemma tracks_gets_clipboard :
  tracks w0 (gets clipboard) (fun c => Forall (known w0) (cb_list c)).
Proof. apply tracks_gets. intros w (_ & _ & H). exact H. Qed.

Lemma tracks_set_focus (f : Z) : tracks w0 (set_focus f) (fun _ => True).
Proof. apply tracks_modify; [intros w H; exact H|exact I]. Qed.

Lemma tracks_set_clipboard (c : option (list Edit)) :
  Forall (known w0) (cb_list c) ->
  tracks w0 (modify (with_clipboard c)) (fun _ => True).
Proof.
  intros Hc. apply tracks_modify; [|exact I].
  intros w (Hn & Hl & _). split; [exact Hn|]. split; [exact Hl|exact Hc].
Qed.

Lemma same_identity_set_edit_text (t : str) : same_identity (set_edit_text t).
Proof. intros e. split; reflexivity. Qed.

Lemma same_identity_set_edit_pos (p : nat) : same_identity (set_edit_pos p).
Proof. intros e. split; reflexivity. Qed.

Ltac tracks_step :=
  match goal with
  | |- tracks _ (bind (gets clipboard) _) _ =>
      eapply tracks_bind; [apply tracks_gets_clipboard|intros ? ?]
  | |- tracks _ (bind (gets _) _) _ =>
      eapply tracks_bind; [apply tracks_gets_any|intros ? _]
  | |- tracks _ (bind (index_lines _) _) _ =>
      eapply tracks_bind; [apply tracks_index_lines|intros ? ?]
  | |- tracks _ (bind (pop_line _) _) _ =>
      eapply tracks_bind; [apply tracks_pop_line|intros ? ?]
  | |- tracks _ (bind (HighlightedEdit _) _) _ =>
      eapply tracks_bind; [apply tracks_HighlightedEdit|intros ? ?]
  | |- tracks _ (bind (_get_at_pos _) _) _ =>
      eapply tracks_bind; [apply tracks_get_at|intros [[? ?]|] ?]
  | |- tracks _ (bind (get_prev _) _) _ =>
      eapply tracks_bind; [apply tracks_get_at|intros [[? ?]|] ?]
  | |- tracks _ (bind (get_next _) _) _ =>
      eapply tracks_bind; [apply tracks_get_at|intros [[? ?]|] ?]
  | |- tracks _ (bind (mutate_line _ _) _) _ =>
      eapply tracks_bind;
      [apply tracks_mutate_line;
       first [apply same_identity_set_edit_text
             |apply same_identity_set_edit_pos]
      |intros _ _]
  | |- tracks _ (bind (del_line _) _) _ =>
      eapply tracks_bind; [apply tracks_del_line|intros _ _]
  | |- tracks _ (mutate_line _ _) _ =>
      apply tracks_mutate_line;
      first [apply same_identity_set_edit_text
            |apply same_identity_set_edit_pos]
  | |- tracks _ (del_line _) _ => apply tracks_del_line
  | |- tracks _ (set_focus _) _ => apply tracks_set_focus
  | |- tracks _ (modify (with_focus _)) _ => apply tracks_set_focus
  | |- tracks _ (ret _) _ => apply tracks_ret; try exact I
  end.

Lemma tracks_split_focus : tracks w0 split_focus (fun _ => True).
Proof.
  unfold split_focus. repeat tracks_step.
  apply tracks_insert_line, known_fresh. assumption.
Qed.

Lemma tracks_combine_prev : tracks w0 combine_focus_with_prev (fun _ => True).
Proof. unfold combine_focus_with_prev. repeat tracks_step. Qed.

Lemma tracks_combine_next : tracks w0 combine_focus_with_next (fun _ => True).
Proof. unfold combine_focus_with_next. repeat tracks_step. Qed.

Lemma tracks_cut : tracks w0 cut_to_clipboard (fun _ => True).
Proof.
  unfold cut_to_clipboard. tracks_step.
  eapply tracks_bind with (Q := fun _ => True).
  { destruct a; [apply tracks_ret; exact I|].
    apply tracks_set_clipboard. constructor. }
  intros _ _. repeat tracks_step.
  eapply tracks_bind with (Q := fun _ => True).
  { apply tracks_set_clipboard. simpl. apply Forall_app. split.
    - destruct a2; assumption.
    - constructor; [assumption|constructor]. }
  intros _ _. repeat tracks_step.
Qed.

Lemma tracks_paste : tracks w0 paste_from_clipboard (fun _ => True).
Proof.
  unfold paste_from_clipboard. tracks_step.
  destruct a as [cb|]; [|apply tracks_ret; exact I].
  eapply tracks_bind with (Q := fun _ => True).
  { apply tracks_for_each with (P := fun _ => True).
    - apply Forall_forall. intros; exact I.
    - intros line _. repeat tracks_step.
      apply tracks_insert_line, known_fresh. assumption. }
  intros _ _. repeat tracks_step.
Qed.

Lemma tracks_save_file : tracks w0 save_file (fun _ => True).
Proof.
  unfold save_file, save_collect.
  eapply tracks_bind with (Q := fun _ => True); [|intros; tracks_step].
  tracks_step.
  apply keeps_tracks, keeps_save_rest, evolves_read_next_line.
Qed.

Lemma tracks_discard (A : Type) (c : M A) (Q : A -> Prop) :
  tracks w0 c Q -> tracks w0 (c ;; ret tt) (fun _ => True).
Proof.
  intros H. eapply tracks_bind; [exact H|].
  intros _ _. apply tracks_ret. exact I.
Qed.

Lemma tracks_run (o : op) : tracks w0 (run o) (fun _ => True).
Proof.
  destruct o; unfold run.
  - eapply tracks_discard. unfold get_focus. tracks_step. apply tracks_get_at.
  - apply tracks_set_focus.
  - eapply tracks_discard. apply tracks_get_at.
  - eapply tracks_discard. apply tracks_get_at.
  - eapply tracks_discard. apply tracks_get_at.
  - eapply tracks_discard. apply keeps_tracks, evolves_read_next_line.
  - apply tracks_split_focus.
  - apply tracks_combine_prev.
  - apply tracks_combine_next.
  - eapply tracks_discard with (Q := fun _ => True).
    unfold get_coords. repeat tracks_step.
  - apply tracks_cut.
  - apply tracks_paste.
  - apply tracks_set_clipboard. constructor.
  - eapply tracks_discard. apply tracks_save_file.
  - tracks_step.
  - tracks_step.
Qed.
End Tracks.

Lemma evolves_trans (w0 w1 w2 : LineWalker) :
  evolves w0 w1 -> evolves w1 w2 -> evolves w0 w2.
Proof.
  intros (Hn1 & Hl1 & Hc1) (Hn2 & Hl2 & Hc2).
  assert (K : forall e, known w1 e -> known w0 e).
  { intros e He Hlt.
    destruct He as (r & Hr & Hu & Ho); [lia|].
    assert (Hk : known w0 r).
    { unfold objects in Hr. apply in_app_or in Hr.
      rewrite Forall_forall in Hl1, Hc1. destruct Hr; auto. }
    destruct Hk as (r0 & Hr0 & Hu0 & Ho0); [lia|].
    exists r0. repeat split; [assumption|congruence|congruence]. }
  split; [lia|].
  split; eapply Forall_impl; try eassumption; exact K.
Qed.

Lemma evolves_after (o : op) (w : LineWalker) : evolves w (after o w).
Proof.
  unfold after. apply (tracks_keeps w _ (run o) _ (tracks_run w o)).
  apply evolves_refl.
Qed.

Lemma evolves_after_all (ops : list op) (w : LineWalker) :
  evolves w (after_all ops w).
Proof.
  revert w. induction ops as [|o ops IH]; intros w; [apply evolves_refl|].
  simpl. eapply evolves_trans; [apply evolves_after|apply IH].
Qed.

Lemma uid_injective (l : list Edit) (a b : Edit) :
  NoDup (map uid l) -> In a l -> In b l -> uid a = uid b -> a = b.
Proof.
  induction l as [|x l IH]; simpl; intros Hd Ha Hb Hu; [tauto|].
  inversion Hd as [|? ? Hx Hd']; subst.
  destruct Ha as [->|Ha], Hb as [->|Hb]; auto.
  - exfalso. apply Hx. rewrite Hu. apply in_map, Hb.
  - exfalso. apply Hx. rewrite <- Hu. apply in_map, Ha.
Qed.

(** *** Identities stay distinct *)

Lemma insert_at_perm (A : Type) (p : nat) (x : A) (l : list A) :
  Permutation (PyList.insert_at p x l) (x :: l).
Proof.
  unfold PyList.insert_at. rewrite <- (firstn_skipn p l) at 3.
  symmetry. apply Permutation_middle.
Qed.

Lemma remove_at_perm (A : Type) (k : nat) (e : A) (l : list A) :
  nth_error l k = Some e -> Permutation l (e :: PyList.remove_at k l).
Proof.
  intros H. destruct (nth_error_split _ _ H) as (l1 & l2 & -> & <-).
  rewrite remove_at_at. symmetry. apply Permutation_middle.
Qed.

Lemma remove_at_none (A : Type) (k : nat) (l : list A) :
  nth_error l k = None -> PyList.remove_at k l = l.
Proof.
  intros H. apply nth_error_None in H. unfold PyList.remove_at.
  rewrite firstn_all2, skipn_all2 by lia. apply app_nil_r.
Qed.

Lemma map_uid_set_at (k : nat) (f : Edit -> Edit) (l : list Edit) :
  same_identity f -> map uid (PyList.set_at k f l) = map uid l.
Proof.
  intros Hf. revert k. induction l as [|x l IH]; intros [|k]; simpl;
    try reflexivity.
  - destruct (Hf x) as [-> _]. reflexivity.
  - rewrite IH. reflexivity.
Qed.

Lemma wf_shrink (w w' : LineWalker) (extra : list nat) :
  wf w -> next_uid w <= next_uid w' ->
  Permutation (uids w) (extra ++ uids w') -> wf w'.
Proof.
  intros [Hd Hb] Hn Hp. split.
  - apply (Permutation_NoDup Hp) in Hd. exact (NoDup_app_remove_l _ _ Hd).
  - rewrite Hp in Hb. apply Forall_app in Hb as [_ Hb].
    eapply Forall_impl; [|exact Hb]. simpl. intros u Hu. lia.
Qed.

Lemma wf_same (w w' : LineWalker) :
  wf w -> next_uid w <= next_uid w' -> uids w' = uids w -> wf w'.
Proof.
  intros Hw Hn Hu. apply (wf_shrink w w' [] Hw Hn). rewrite Hu. reflexivity.
Qed.

Lemma wf_grow (w w' : LineWalker) :
  wf w -> next_uid w < next_uid w' ->
  Permutation (uids w') (next_uid w :: uids w) -> wf w'.
Proof.
  intros [Hd Hb] Hn Hp. split.
  - apply (Permutation_NoDup (Permutation_sym Hp)). constructor; [|exact Hd].
    intros Hin. rewrite Forall_forall in Hb. specialize (Hb _ Hin). lia.
  - rewrite Hp. constructor; [exact Hn|].
    eapply Forall_impl; [|exact Hb]. simpl. intros u Hu. lia.
Qed.

Lemma wf_init (content : str) : wf (init content).
Proof. split; constructor. Qed.

Lemma wf_appended (f : option str) (line : str) (w : LineWalker) :
  wf w -> wf (appended f line w).
Proof.
  intros Hw. apply (wf_grow w); [exact Hw|simpl; lia|].
  unfold uids, objects. simpl. rewrite <- app_assoc. simpl.
  rewrite !map_app. simpl. symmetry. apply Permutation_middle.
Qed.

Lemma wf_read_next_line : keeps wf read_next_line.
Proof.
  intros w Hw. destruct (file w) as [s|] eqn:Hf.
  - destruct (read_next_line_cases w s Hf)
      as [[_ ->]|(a & rest & _ & _ & ->)]; apply wf_appended, Hw.
  - rewrite read_next_line_closed by exact Hf. exact Hw.
Qed.

Lemma wf_get_at (pos : Z) : keeps wf (_get_at_pos pos).
Proof.
  intros w Hw. destruct (get_at_state w pos) as [->|(_ & _ & ->)];
    [exact Hw|apply wf_read_next_line, Hw].
Qed.

Lemma wf_index_lines (i : Z) : keeps wf (index_lines i).
Proof. intros w Hw. rewrite (index_lines_state unit). exact Hw. Qed.

Lemma wf_mutate_line (i : Z) (f : Edit -> Edit) :
  same_identity f -> keeps wf (mutate_line i f).
Proof.
  intros Hf w Hw. unfold mutate_line, bind, gets.
  destruct (PyList.norm (length (lines w)) i) as [k|]; [|exact Hw].
  simpl. apply (wf_same w); [exact Hw|apply le_n|].
  unfold uids, objects. simpl. rewrite !map_app, map_uid_set_at by exact Hf.
  reflexivity.
Qed.

Lemma wf_with_lines_remove (k : nat) (w : LineWalker) :
  wf w -> wf (with_lines (PyList.remove_at k (lines w)) w).
Proof.
  intros Hw. destruct (nth_error (lines w) k) as [e|] eqn:E.
  - apply (wf_shrink w _ [uid e]); [exact Hw|apply le_n|].
    unfold uids, objects. simpl. rewrite !map_app.
    apply (Permutation_app_tail _ (Permutation_map uid (remove_at_perm _ _ _ _ E))).
  - rewrite remove_at_none by exact E. destruct w; exact Hw.
Qed.

Lemma wf_del_line (i : Z) : keeps wf (del_line i).
Proof.
  intros w Hw. unfold del_line, bind, gets, PyList.del.
  destruct (PyList.norm (length (lines w)) i) as [k|]; [|exact Hw].
  simpl. apply wf_with_lines_remove, Hw.
Qed.

Lemma wf_with_focus (f : Z) (w : LineWalker) : wf w -> wf (with_focus f w).
Proof. intros H. exact H. Qed.

Lemma wf_insert_fresh (w : LineWalker) (i : Z) (e : Edit) :
  wf w -> uid e = next_uid w ->
  wf (mkWalker (file w) (PyList.insert (lines w) i e) (focus w)
               (clipboard w) (S (next_uid w))).
Proof.
  intros Hw He. apply (wf_grow w); [exact Hw|simpl; lia|].
  unfold uids, objects, PyList.insert. simpl. rewrite !map_app, <- He.
  apply (Permutation_app_tail _
           (Permutation_map uid (insert_at_perm _ _ e (lines w)))).
Qed.

Lemma wf_split_focus : keeps wf split_focus.
Proof.
  intros w Hw. unfold split_focus, bind at 1, gets at 1.
  unfold bind at 1. pose proof (index_lines_state unit (focus w) w) as Hs.
  destruct (index_lines (focus w) w) as [e w1|x w1]; simpl in Hs; subst w1;
    [|exact Hw].
  unfold bind at 1.
  change (HighlightedEdit (skipn (edit_pos e) (edit_text e)) w)
    with (Ret (mkEdit (next_uid w) (skipn (edit_pos e) (edit_text e))
                      (length (skipn (edit_pos e) (edit_text e))) [])
              (with_next_uid (S (next_uid w)) w)).
  cbv beta iota.
  assert (Hb : wf (with_next_uid (S (next_uid w)) w)).
  { apply (wf_same w); [exact Hw|simpl; lia|reflexivity]. }
  unfold bind at 1.
  pose proof (wf_mutate_line (focus w)
                (set_edit_text (firstn (edit_pos e) (edit_text e)))
                (same_identity_set_edit_text _) _ Hb) as Hm.
  assert (Hu : forall w',
             state_of (mutate_line (focus w)
                         (set_edit_text (firstn (edit_pos e) (edit_text e)))
                         (with_next_uid (S (next_uid w)) w)) = w' ->
             uids w' = uids w /\ next_uid w' = S (next_uid w)).
  { intros w' <-. unfold mutate_line, bind, gets. simpl.
    destruct (PyList.norm (length (lines w)) (focus w)) as [k|]; simpl;
      [|auto].
    unfold uids, objects. simpl.
    rewrite !map_app, map_uid_set_at by apply same_identity_set_edit_text.
    auto. }
  destruct (mutate_line _ _ _) as [[] w2|x w2]; simpl in Hm; [|exact Hm].
  destruct (Hu w2 eq_refl) as [Hu2 Hn2].
  unfold insert_line, bind, gets, modify. simpl.
  apply (wf_grow w); [exact Hw|simpl; lia|].
  unfold uids at 1, objects, PyList.insert. simpl. rewrite !map_app.
  rewrite <- Hu2. unfold uids, objects. rewrite map_app.
  exact (Permutation_app_tail _
           (Permutation_map uid (insert_at_perm _ _ _ (lines w2)))).
Qed.

Lemma wf_paste_body (line : Edit) :
  keeps wf (newline <- HighlightedEdit (edit_text line) ;;
            (let newline := set_original_text [] newline in
             fi <- gets focus ;; insert_line fi newline)).
Proof.
  intros w Hw. cbv [bind HighlightedEdit gets modify ret insert_line].
  simpl. apply (wf_insert_fresh w); [exact Hw|reflexivity].
Qed.

Lemma wf_paste : keeps wf paste_from_clipboard.
Proof.
  unfold paste_from_clipboard. apply keeps_bind; [apply keeps_gets|].
  intros [cb|]; [|apply keeps_ret].
  apply keeps_bind;
    [apply keeps_for_each; intros line; apply wf_paste_body|].
  intros _. apply keeps_bind; [apply keeps_gets|].
  intros fi. apply keeps_modify. intros w Hw. exact Hw.
Qed.

Lemma wf_with_clipboard_none (w : LineWalker) :
  wf w -> wf (with_clipboard None w).
Proof.
  intros Hw. apply (wf_shrink w _ (map uid (cb_list (clipboard w))));
    [exact Hw|apply le_n|].
  unfold uids, objects. simpl. rewrite app_nil_r, map_app.
  apply Permutation_app_comm.
Qed.

Lemma wf_with_clipboard_empty (w : LineWalker) :
  wf w -> wf (with_clipboard (Some []) w).
Proof. apply wf_with_clipboard_none. Qed.

Lemma wf_cut : keeps wf cut_to_clipboard.
Proof.
  intros w Hw. unfold cut_to_clipboard.
  unfold bind at 1, gets at 1. unfold bind at 1.
  assert (H1 : exists w1,
             (match clipboard w with
              | Some _ => ret tt
              | None => modify (with_clipboard (Some []))
              end) w = Ret tt w1
             /\ wf w1 /\ clipboard w1 <> None).
  { destruct (clipboard w) eqn:E.
    - exists w. split; [reflexivity|]. split; [exact Hw|congruence].
    - eexists. split; [reflexivity|]. split;
        [apply wf_with_clipboard_empty, Hw|discriminate]. }
  destruct H1 as (w1 & -> & Hw1 & Hc1). clear w Hw.
  unfold bind at 1, gets at 1. unfold bind at 1.
  unfold pop_line, bind at 1, gets at 1, PyList.pop.
  destruct (PyList.norm (length (lines w1)) (focus w1)) as [k|];
    [|exact Hw1].
  destruct (nth_error (lines w1) k) as [e|] eqn:E; [|exact Hw1].
  cbv [bind modify gets ret set_focus]. simpl.
  apply (wf_shrink w1 _ []); [exact Hw1|apply le_n|].
  unfold uids, objects. simpl.
  destruct (clipboard w1) as [c|]; [|congruence]. simpl.
  rewrite app_assoc. apply Permutation_map.
  rewrite (Permutation_app_tail c (remove_at_perm _ _ _ _ E)). simpl.
  apply Permutation_cons_append.
Qed.

Lemma wf_save_file : keeps wf save_file.
Proof.
  unfold save_file, save_collect.
  apply keeps_bind; [|intros l; apply keeps_ret].
  apply keeps_bind; [apply keeps_gets|].
  intros ls. apply keeps_save_rest, wf_read_next_line.
Qed.

Lemma wf_combine_prev : keeps wf combine_focus_with_prev.
Proof.
  unfold combine_focus_with_prev, get_prev.
  apply keeps_bind; [apply keeps_gets|]. intros fi.
  apply keeps_bind; [apply wf_get_at|]. intros [[above apos]|];
    [|apply keeps_ret].
  apply keeps_bind; [apply wf_index_lines|]. intros focus_w.
  apply keeps_bind;
    [apply wf_mutate_line, same_identity_set_edit_pos|]. intros _.
  apply keeps_bind;
    [apply wf_mutate_line, same_identity_set_edit_text|]. intros _.
  apply keeps_bind; [apply wf_del_line|]. intros _.
  apply keeps_modify. intros w Hw. exact Hw.
Qed.

Lemma wf_combine_next : keeps wf combine_focus_with_next.
Proof.
  unfold combine_focus_with_next, get_next.
  apply keeps_bind; [apply keeps_gets|]. intros fi.
  apply keeps_bind; [apply wf_get_at|]. intros [[below bpos]|];
    [|apply keeps_ret].
  apply keeps_bind; [apply wf_index_lines|]. intros focus_w.
  apply keeps_bind;
    [apply wf_mutate_line, same_identity_set_edit_text|]. intros _.
  apply wf_del_line.
Qed.

Lemma wf_run (o : op) : keeps wf (run o).
Proof.
  destruct o; unfold run.
  - apply keeps_bind; [|intros; apply keeps_ret].
    unfold get_focus. apply keeps_bind; [apply keeps_gets|].
    intros f. apply wf_get_at.
  - apply keeps_modify. intros w Hw. exact Hw.
  - apply keeps_bind; [apply wf_get_at|intros; apply keeps_ret].
  - apply keeps_bind; [apply wf_get_at|intros; apply keeps_ret].
  - apply keeps_bind; [apply wf_get_at|intros; apply keeps_ret].
  - apply keeps_bind; [apply wf_read_next_line|intros; apply keeps_ret].
  - apply wf_split_focus.
  - apply wf_combine_prev.
  - apply wf_combine_next.
  - apply keeps_bind; [|intros; apply keeps_ret].
    unfold get_coords. apply keeps_bind; [apply keeps_gets|]. intros fi.
    apply keeps_bind; [apply wf_index_lines|intros; apply keeps_ret].
  - apply wf_cut.
  - apply wf_paste.
  - apply keeps_modify. intros w. apply wf_with_clipboard_none.
  - apply keeps_bind; [apply wf_save_file|intros; apply keeps_ret].
  - apply wf_mutate_line, same_identity_set_edit_text.
  - apply wf_mutate_line, same_identity_set_edit_pos.
Qed.

Lemma wf_after_all (ops : list op) (w : LineWalker) :
  wf w -> wf (after_all ops w).
Proof.
  revert w. induction ops as [|o ops IH]; intros w H; [exact H|].
  simpl. apply IH. apply wf_run. exact H.
Qed.

(** C8: no operation of the buffer, and no edit of a widget, changes the
    [original_text] of a widget that exists. From a walker whose widgets
    have distinct identities (as a freshly opened one has), whatever
    operations run, the identities stay distinct, and a widget found
    afterwards in [lines] or on the clipboard with the identity of a widget
    [r] held before has the [original_text] that [r] had. Only [edit_text]
    and the cursor offset change. *)
Theorem original_text_never_changes (w : LineWalker) (ops : list op) :
  wf w ->
  wf (after_all ops w)
  /\ forall r r',
       In r (objects w) ->
       In r' (objects (after_all ops w)) ->
       uid r' = uid r ->
       original_text r' = original_text r.
Proof.
  intros Hw. split; [apply wf_after_all, Hw|].
  intros r r' Hr Hr' Hu. destruct Hw as [Hd Hb].
  destruct (evolves_after_all ops w) as (_ & Hl & Hc).
  assert (Hk : known w r').
  { unfold objects in Hr'. apply in_app_or in Hr'.
    rewrite Forall_forall in Hl, Hc. destruct Hr'; auto. }
  rewrite Forall_forall in Hb.
  destruct Hk as (r0 & Hr0 & Hu0 & Ho0).
  { rewrite Hu. apply Hb. unfold uids. apply in_map, Hr. }
  rewrite <- Ho0. f_equal.
  apply (uid_injective (objects w)); try assumption. congruence.
Qed.

Lemma original_text_never_changes_witness :
  let r := loaded 0 [TAB; 120]%N in
  let w := state_of (_get_at_pos 0 (init [TAB; 120]%N)) in
  let ops := [Edit_set_text 0 [121]%N; Split_focus; Cut_to_clipboard;
              Paste_from_clipboard; Save_file] in
  wf w
  /\ In r (objects w)
  /\ forall r', In r' (objects (after_all ops w)) -> uid r' = uid r ->
                original_text r' = [TAB; 120]%N.
Proof.
  intros r w ops.
  assert (Hw : wf w).
  { split; repeat constructor. simpl. tauto. }
  assert (Hr : In r (objects w)) by (left; reflexivity).
  split; [exact Hw|]. split; [exact Hr|].
  intros r'.
  exact (proj2 (original_text_never_changes w ops Hw) r r' Hr).
Defined.

(* ------------------------------------------------------------------ *)
(** ** [re_tab] after [expandtabs] *)

Lemma plain_cons (c : char) (t : str) :
  plain (c :: t) = true ->
  N.eqb c TAB = false /\ N.eqb c NL || N.eqb c CR = false /\ plain t = true.
Proof.
  unfold plain. simpl. rewrite andb_true_iff, negb_true_iff.
  intros [H Ht]. rewrite <- orb_assoc in H. apply orb_false_iff in H.
  tauto.
Qed.

Lemma expandtabs_from_plain (t rest : str) :
  forall col,
    plain t = true ->
    expandtabs_from col (t ++ rest)
    = t ++ expandtabs_from (col + length t) rest.
Proof.
  induction t as [|c t IH]; intros col Hp.
  - simpl. rewrite Nat.add_0_r. reflexivity.
  - apply plain_cons in Hp as (Hc & Hn & Ht). cbn [app expandtabs_from].
    rewrite Hc, Hn, IH by exact Ht. cbn [length].
    rewrite Nat.add_succ_r. reflexivity.
Qed.

Lemma expandtabs_from_field (f rest : str) (col : nat) :
  plain f = true -> col mod 8 = 0 ->
  expandtabs_from col (f ++ TAB :: rest)
  = pad f ++ expandtabs_from (col + 8 * S (length f / 8)) rest.
Proof.
  intros Hp Hc. rewrite expandtabs_from_plain by exact Hp.
  cbn [expandtabs_from]. rewrite N.eqb_refl. unfold pad.
  rewrite <- app_assoc.
  assert (Hm : (col + length f) mod 8 = length f mod 8).
  { rewrite Nat.Div0.add_mod, Hc, Nat.add_0_l.
    apply Nat.Div0.mod_mod. }
  rewrite Hm. do 3 f_equal.
  pose proof (Nat.div_mod_eq (length f) 8).
  pose proof (Nat.mod_upper_bound (length f) 8). lia.
Qed.

Lemma pad_length (f : str) : length (pad f) = 8 * S (length f / 8).
Proof.
  unfold pad. rewrite length_app, repeat_length.
  pose proof (Nat.div_mod_eq (length f) 8).
  pose proof (Nat.mod_upper_bound (length f) 8). lia.
Qed.

Lemma expandtabs_build (fs : list str) (tl : str) :
  forall col,
    col mod 8 = 0 -> forallb plain fs = true -> plain tl = true ->
    expandtabs_from col (build fs tl) = concat (map pad fs) ++ tl.
Proof.
  unfold build. induction fs as [|f fs IH]; intros col Hc Hfs Htl.
  - simpl. rewrite <- (app_nil_r tl) at 1.
    rewrite expandtabs_from_plain by exact Htl. simpl. apply app_nil_r.
  - simpl in Hfs. apply andb_true_iff in Hfs as [Hf Hfs]. simpl.
    rewrite <- !app_assoc. simpl.
    rewrite expandtabs_from_field by assumption.
    rewrite IH; [reflexivity| |assumption|assumption].
    rewrite Nat.Div0.add_mod, Hc, Nat.mul_comm, Nat.Div0.mod_mul.
    reflexivity.
Qed.

(** *** Slices *)

Lemma slice_app_mid (pre t rest : str) (a b : nat) :
  b <= length t ->
  slice (pre ++ t ++ rest) (length pre + a) (length pre + b) = slice t a b.
Proof.
  intros Hb. unfold slice.
  replace (length pre + b - (length pre + a)) with (b - a) by lia.
  rewrite skipn_app, skipn_all2 by lia.
  replace (length pre + a - length pre) with a by lia. simpl.
  destruct (Nat.le_gt_cases a (length t)) as [Ha|Ha].
  - rewrite skipn_app. replace (a - length t) with 0 by lia. simpl.
    rewrite firstn_app, length_skipn.
    replace (b - a - (length t - a)) with 0 by lia.
    simpl. apply app_nil_r.
  - replace (b - a) with 0 by lia. reflexivity.
Qed.

Lemma slice_all (t : str) : slice t 0 (length t) = t.
Proof. unfold slice. rewrite Nat.sub_0_r. simpl. apply firstn_all. Qed.

Lemma slice_spaces (k : nat) :
  2 <= k -> slice (repeat SP k) (k - 2) k = [SP; SP].
Proof.
  intros Hk. unfold slice. replace (k - (k - 2)) with 2 by lia.
  assert (E : repeat SP k = repeat SP (k - 2) ++ repeat SP 2)
    by (rewrite <- repeat_app; f_equal; lia).
  rewrite E, skipn_app, repeat_length, Nat.sub_diag.
  rewrite skipn_all2 by (rewrite repeat_length; lia). reflexivity.
Qed.

Lemma last_cons_cons (c d : char) (t : str) (x : char) :
  last (c :: d :: t) x = last (d :: t) x.
Proof. reflexivity. Qed.

(** The last character of a text, from the slice of its last two. *)
Lemma slice_end_last (t : str) (x y : char) :
  slice t (length t - 2) (length t) = [x; y] -> last t 0%N = y.
Proof.
  unfold slice. intros Hs.
  rewrite firstn_all2 in Hs by (rewrite length_skipn; lia).
  rewrite <- (firstn_skipn (length t - 2) t), Hs.
  change [x; y] with ([x] ++ [y]). rewrite app_assoc. apply last_last.
Qed.

(** *** [rstrip] *)

Lemma rstrip_app (a b : str) :
  rstrip (a ++ b) = match rstrip b with
                    | [] => rstrip a
                    | _ => a ++ rstrip b
                    end.
Proof.
  induction a as [|c a IH]; simpl.
  - destruct (rstrip b); reflexivity.
  - rewrite IH. destruct (rstrip b); [reflexivity|].
    destruct a; reflexivity.
Qed.

Lemma rstrip_spaces (k : nat) : rstrip (repeat SP k) = [].
Proof. induction k as [|k IH]; simpl; [reflexivity|]. rewrite IH. reflexivity. Qed.

Lemma rstrip_keeps (t : str) : ends_in_space t = false -> rstrip t = t.
Proof.
  unfold ends_in_space. induction t as [|c t IH]; intros H; [reflexivity|].
  destruct t as [|d t].
  - simpl in *. rewrite H. reflexivity.
  - rewrite last_cons_cons in H. specialize (IH H).
    change (rstrip (c :: d :: t)) with
      (match rstrip (d :: t) with
       | [] => if isspace c then [] else [c]
       | t' => c :: t'
       end).
    rewrite IH. reflexivity.
Qed.

Lemma rstrip_pad (f : str) : ends_in_space f = false -> rstrip (pad f) = f.
Proof.
  intros H. unfold pad. rewrite rstrip_app, rstrip_spaces.
  apply rstrip_keeps, H.
Qed.

(** *** Tab stops *)

Lemma stops_app (m1 m2 : nat) :
  forall p, stops p (m1 + m2) = stops p m1 ++ stops (p + 8 * m1) m2.
Proof.
  induction m1 as [|m1 IH]; intros p; simpl.
  - rewrite Nat.add_0_r. reflexivity.
  - rewrite IH. do 3 f_equal. lia.
Qed.

Lemma in_stops (m : nat) :
  forall p i, In i (stops p m) <-> exists j, 1 <= j <= m /\ i = p + 8 * j.
Proof.
  induction m as [|m IH]; intros p i; simpl.
  - split; [tauto|]. intros (j & Hj & _). lia.
  - rewrite IH. split.
    + intros [<-|(j & Hj & ->)]; [exists 1; lia|exists (S j); lia].
    + intros (j & Hj & ->). destruct (Nat.eq_dec j 1) as [->|Hne].
      * left. lia.
      * right. exists (j - 1). lia.
Qed.

Lemma map_seq_stops (m : nat) :
  forall a, map (fun k => 8 + k * 8) (seq a m) = stops (8 * a) m.
Proof.
  induction m as [|m IH]; intros a; simpl; [reflexivity|].
  rewrite IH. f_equal; [lia|]. f_equal. lia.
Qed.

Lemma py_range_stops (n : nat) : py_range 8 n 8 = stops 0 ((n - 1) / 8).
Proof.
  unfold py_range. rewrite map_seq_stops. simpl (8 * 0). f_equal.
  destruct (Nat.le_gt_cases 8 n) as [H|H].
  - f_equal. lia.
  - rewrite !Nat.div_small by lia. reflexivity.
Qed.

Lemma in_py_range (n j : nat) :
  1 <= j -> 8 * j < n -> In (8 * j) (py_range 8 n 8).
Proof.
  intros Hj Hn. rewrite py_range_stops. apply in_stops. exists j.
  split; [|reflexivity]. split; [exact Hj|].
  apply Nat.div_le_lower_bound; lia.
Qed.

Lemma no_false_stop_at (t : str) (j : nat) :
  no_false_stop t = true -> 1 <= j -> 8 * j < length t ->
  Str.eqb (slice t (8 * j - 2) (8 * j)) [SP; SP] = false.
Proof.
  unfold no_false_stop. intros H Hj Hn. rewrite forallb_forall in H.
  apply negb_true_iff. apply (H (8 * j)). apply in_py_range; assumption.
Qed.

(** *** The loop of [re_tab] *)

Lemma loop_app (E : str) (i1 i2 : list nat) (st : list str * nat) :
  re_tab_loop E (i1 ++ i2) st = re_tab_loop E i2 (re_tab_loop E i1 st).
Proof. apply fold_left_app. Qed.

Lemma loop_idle (E : str) (idx : list nat) (l : list str) (p : nat) :
  (forall i, In i idx -> Str.eqb (slice E (i - 2) i) [SP; SP] = false) ->
  re_tab_loop E idx (l, p) = (l, p).
Proof.
  induction idx as [|i idx IH]; intros H; [reflexivity|].
  unfold re_tab_loop in *. simpl. rewrite (H i) by (left; reflexivity).
  apply IH. intros k Hk. apply H. right. exact Hk.
Qed.

Lemma field_ok_parts (f : str) :
  field_ok f = true ->
  plain f = true /\ length f mod 8 <= 6 /\ ends_in_space f = false
  /\ no_false_stop f = true.
Proof.
  unfold field_ok. rewrite !andb_true_iff, negb_true_iff, Nat.leb_le.
  tauto.
Qed.

(** Inside a field no stop matches: the text has no two spaces before a
    stop, and it does not end in a space. *)
Lemma field_no_stop (f : str) (j : nat) :
  field_ok f = true -> 1 <= j -> 8 * j <= length f ->
  Str.eqb (slice f (8 * j - 2) (8 * j)) [SP; SP] = false.
Proof.
  intros Hf Hj Hn. apply field_ok_parts in Hf as (_ & _ & He & Hs).
  destruct (Nat.eq_dec (8 * j) (length f)) as [E|E].
  - apply eqb_neq. intros Hsl. rewrite E in Hsl.
    apply slice_end_last in Hsl. unfold ends_in_space in He.
    rewrite Hsl in He. discriminate He.
  - apply no_false_stop_at; [assumption|assumption|lia].
Qed.

Lemma loop_field (E pre f rest : str) (l : list str) :
  E = pre ++ pad f ++ rest -> field_ok f = true ->
  re_tab_loop E (stops (length pre) (S (length f / 8))) (l, length pre)
  = (l ++ [f ++ [TAB]], length pre + 8 * S (length f / 8)).
Proof.
  intros HE Hf.
  pose proof (Nat.div_mod_eq (length f) 8) as Hdm.
  pose proof (Nat.mod_upper_bound (length f) 8 ltac:(lia)) as Hub.
  destruct (field_ok_parts f Hf) as (_ & Hr & He & _).
  replace (S (length f / 8)) with (length f / 8 + 1) at 1 by lia.
  rewrite stops_app, loop_app, loop_idle.
  - unfold re_tab_loop. cbn [stops fold_left re_tab_step].
    set (i := length pre + 8 * (length f / 8) + 8).
    assert (Hi : i = length (pre ++ f) + (8 - length f mod 8))
      by (subst i; rewrite length_app; lia).
    assert (H2 : slice E (i - 2) i = [SP; SP]).
    { replace (i - 2)
        with (length (pre ++ f) + (8 - length f mod 8 - 2)) by lia.
      rewrite Hi, HE. unfold pad. rewrite <- app_assoc, app_assoc.
      rewrite slice_app_mid by (rewrite repeat_length; lia).
      apply slice_spaces. lia. }
    assert (Hp : slice E (length pre) i = pad f).
    { replace (length pre) with (length pre + 0) at 1 by lia.
      replace i with (length pre + length (pad f))
        by (rewrite pad_length; subst i; lia).
      rewrite HE, slice_app_mid by lia. apply slice_all. }
    rewrite H2, Hp, rstrip_pad by exact He.
    change (Str.eqb [SP; SP] [SP; SP]) with true. cbv iota.
    f_equal. subst i. lia.
  - intros i Hi. apply in_stops in Hi as (j & Hj & ->).
    replace (length pre + 8 * j - 2) with (length pre + (8 * j - 2)) by lia.
    rewrite HE. unfold pad. rewrite <- app_assoc.
    rewrite slice_app_mid by lia.
    apply field_no_stop; [exact Hf|lia|lia].
Qed.

Lemma span_cons (f : str) (fs : list str) :
  span (f :: fs) = S (length f / 8) + span fs.
Proof. reflexivity. Qed.

Lemma loop_fields (E : str) (fs : list str) :
  forall (pre rest : str) (l : list str),
    E = pre ++ concat (map pad fs) ++ rest ->
    forallb field_ok fs = true ->
    re_tab_loop E (stops (length pre) (span fs)) (l, length pre)
    = (l ++ map (fun f => f ++ [TAB]) fs, length pre + 8 * span fs).
Proof.
  induction fs as [|f fs IH]; intros pre rest l HE Hfs.
  - unfold span. simpl. rewrite app_nil_r, Nat.add_0_r. reflexivity.
  - simpl in Hfs. apply andb_true_iff in Hfs as [Hf Hfs].
    rewrite span_cons, stops_app, loop_app.
    rewrite (loop_field E pre f (concat (map pad fs) ++ rest))
      by (try assumption; rewrite HE; simpl; rewrite <- app_assoc;
          reflexivity).
    replace (length pre + 8 * S (length f / 8))
      with (length (pre ++ pad f))
      by (rewrite length_app, pad_length; reflexivity).
    rewrite (IH (pre ++ pad f) rest)
      by (try assumption; rewrite HE; simpl; rewrite <- !app_assoc;
          reflexivity).
    rewrite <- app_assoc. cbn [map app]. f_equal.
    rewrite length_app, pad_length. lia.
Qed.

Lemma loop_tail (E pre tl : str) (l : list str) :
  E = pre ++ tl -> tail_ok tl = true ->
  re_tab_loop E (stops (length pre) ((length tl - 1) / 8)) (l, length pre)
  = (l, length pre).
Proof.
  intros HE Ht. apply andb_true_iff in Ht as [_ Hs].
  apply loop_idle. intros i Hi. apply in_stops in Hi as (j & Hj & ->).
  assert (Hlt : 8 * j < length tl).
  { pose proof (Nat.Div0.mul_div_le (length tl - 1) 8) as Hd.
    destruct Hj as [H1 Hj].
    apply (Nat.mul_le_mono_l _ _ 8) in Hj.
    lia. }
  replace (length pre + 8 * j - 2) with (length pre + (8 * j - 2)) by lia.
  rewrite HE, <- (app_nil_r tl). rewrite slice_app_mid by lia.
  apply no_false_stop_at; [exact Hs|lia|exact Hlt].
Qed.

Lemma concat_pad_length (fs : list str) :
  length (concat (map pad fs)) = 8 * span fs.
Proof.
  induction fs as [|f fs IH]; [reflexivity|].
  rewrite span_cons. cbn [map concat].
  rewrite length_app, pad_length, IH. lia.
Qed.

Lemma concat_snoc (l : list str) (x : str) :
  concat (l ++ [x]) = concat l ++ x.
Proof. rewrite concat_app. simpl. rewrite app_nil_r. reflexivity. Qed.

(** [re_tab] on the expansion of fields and a tail. *)
Lemma re_tab_fields (fs : list str) (tl : str) :
  forallb field_ok fs = true -> tail_ok tl = true ->
  fs = [] \/ tl <> [] ->
  re_tab (concat (map pad fs) ++ tl) = build fs tl.
Proof.
  intros Hfs Htl Hend. unfold re_tab.
  set (E := concat (map pad fs) ++ tl).
  assert (HlenE : length E = 8 * span fs + length tl)
    by (subst E; rewrite length_app, concat_pad_length; reflexivity).
  assert (Hcount : (length E - 1) / 8 = span fs + (length tl - 1) / 8).
  { rewrite HlenE. destruct Hend as [->|Hne].
    - reflexivity.
    - destruct tl as [|c tl']; [congruence|]. cbn [length].
      replace (8 * span fs + S (length tl') - 1)
        with (span fs * 8 + (S (length tl') - 1)) by lia.
      apply Nat.div_add_l. discriminate. }
  rewrite py_range_stops, Hcount, stops_app, loop_app.
  pose proof (loop_fields E fs [] tl [] eq_refl Hfs) as HF.
  cbn [length app Nat.add] in HF. rewrite HF, Nat.add_0_l.
  pose proof (loop_tail E (concat (map pad fs)) tl
                (map (fun f => f ++ [TAB]) fs) eq_refl Htl) as HT.
  rewrite concat_pad_length in HT. rewrite HT.
  destruct fs as [|f fs].
  - reflexivity.
  - assert (Hne : Nat.eqb (8 * span (f :: fs)) 0 = false)
      by (apply Nat.eqb_neq; rewrite span_cons; lia).
    rewrite Hne, concat_snoc. unfold build. f_equal.
    subst E. rewrite <- concat_pad_length.
    rewrite skipn_app, skipn_all, Nat.sub_diag. reflexivity.
Qed.

(** *** Lines as fields *)

Lemma split_tabs_build (s : str) :
  build (fst (split_tabs s)) (snd (split_tabs s)) = s.
Proof.
  induction s as [|c t IH]; [reflexivity|]. simpl.
  destruct (split_tabs t) as [fs tl]. simpl in IH.
  destruct (N.eqb_spec c TAB) as [->|Hc].
  - simpl. unfold build in *. simpl. rewrite IH. reflexivity.
  - destruct fs as [|f fs]; simpl; unfold build in *; simpl in *;
      rewrite IH; reflexivity.
Qed.

Lemma build_ends_in_tab (fs : list str) :
  fs <> [] -> last (build fs []) 0%N = TAB.
Proof.
  intros H. destruct (@exists_last _ fs H) as (fs' & f & ->).
  unfold build. rewrite app_nil_r, map_app. cbn [map].
  rewrite concat_snoc, !app_assoc. apply last_last.
Qed.

Lemma forallb_field_plain (fs : list str) :
  forallb field_ok fs = true -> forallb plain fs = true.
Proof.
  rewrite !forallb_forall. intros H f Hf.
  apply field_ok_parts. apply H, Hf.
Qed.

(** C4, as stated, fails, in four ways; every line below has its tabs
    where its white space runs end on a tab stop.
    - A tab that ends the line is not restored: its expansion ends at the
      end of the string, and the loop of [re_tab] stops before [len(s)].
      These two lines are [restorable] as well.
    - Two literal spaces that end at a tab stop become a tab, also in a
      line that has no tab at all.
    - White space before a tab is lost to [rstrip].
    - A tab in the last column before a tab stop expands to one space,
      which [re_tab] leaves as it is. *)
Lemma re_tab_not_inverse :
  (spec_tab_aligned [TAB] = true
   /\ restorable [TAB] = true
   /\ re_tab (expandtabs [TAB]) = repeat SP 8
   /\ re_tab (expandtabs [TAB]) <> [TAB])
  /\ (spec_tab_aligned [97; TAB]%N = true
      /\ restorable [97; TAB]%N = true
      /\ re_tab (expandtabs [97; TAB]%N) = 97%N :: repeat SP 7
      /\ re_tab (expandtabs [97; TAB]%N) <> [97; TAB]%N)
  /\ (let s := [97; 98; 99; 100; 101; 102; SP; SP; 120]%N in
      spec_tab_aligned s = true
      /\ re_tab (expandtabs s) = [97; 98; 99; 100; 101; 102; TAB; 120]%N
      /\ re_tab (expandtabs s) <> s)
  /\ (let s := [97; SP; TAB; 98]%N in
      spec_tab_aligned s = true
      /\ re_tab (expandtabs s) = [97; TAB; 98]%N
      /\ re_tab (expandtabs s) <> s)
  /\ (let s := [97; 98; 99; 100; 101; 102; 103; TAB; 120]%N in
      spec_tab_aligned s = true
      /\ re_tab (expandtabs s)
         = [97; 98; 99; 100; 101; 102; 103; SP; 120]%N
      /\ re_tab (expandtabs s) <> s).
Proof.
  repeat split; try reflexivity; vm_compute; discriminate.
Qed.

(** C4, amended: [re_tab] of the tab expansion of a line is the line, for
    every line that is [restorable] and does not end with a tab:
    a line without line feed or carriage return in which every tab spans
    at least two columns, the character before a tab is another tab or
    not white space, and two spaces that end at a tab stop only occur at
    the very end of the line. *)
Theorem re_tab_expandtabs (s : str) :
  restorable s = true ->
  last s 0%N <> TAB ->
  re_tab (expandtabs s) = s.
Proof.
  unfold restorable. intros Ha Hlast.
  pose proof (split_tabs_build s) as Hb.
  destruct (split_tabs s) as [fs tl]. simpl in Hb.
  apply andb_true_iff in Ha as [Hfs Htl].
  assert (Hend : fs = [] \/ tl <> []).
  { destruct tl as [|c tl']; [|right; discriminate].
    destruct fs as [|f fs]; [left; reflexivity|exfalso].
    apply Hlast. rewrite <- Hb. apply build_ends_in_tab. discriminate. }
  unfold expandtabs. rewrite <- Hb at 1.
  rewrite expandtabs_build;
    [|reflexivity|apply forallb_field_plain, Hfs
     |apply andb_true_iff in Htl; apply Htl].
  rewrite re_tab_fields by assumption. exact Hb.
Qed.

Lemma re_tab_expandtabs_witness :
  let s := [TAB; 112; 97; 115; 115; TAB; TAB; 35; 32; 120]%N in
  restorable s = true /\ last s 0%N <> TAB /\ re_tab (expandtabs s) = s.
Proof.
  intros s.
  assert (Ha : restorable s = true) by reflexivity.
  assert (Hl : last s 0%N <> TAB) by discriminate.
  split; [exact Ha|]. split; [exact Hl|].
  exact (re_tab_expandtabs s Ha Hl).
Defined.

(* ------------------------------------------------------------------ *)
(** ** Loading on demand *)

Lemma split_lines_plain (s : str) : ~ In NL s -> split_lines s = [s].
Proof.
  induction s as [|c t IH]; cbn [split_lines In]; intros H; [reflexivity|].
  destruct (N.eqb_spec c NL) as [->|_]; [tauto|].
  rewrite IH by tauto. reflexivity.
Qed.

Lemma split_lines_nl (a rest : str) :
  ~ In NL a -> split_lines (a ++ NL :: rest) = a :: split_lines rest.
Proof.
  induction a as [|c t IH]; cbn [split_lines In app]; intros H.
  - rewrite N.eqb_refl. reflexivity.
  - destruct (N.eqb_spec c NL) as [->|_]; [tauto|].
    rewrite IH by tauto. reflexivity.
Qed.

Lemma split_lines_length (s : str) :
  length (split_lines s) = S (count_nl s).
Proof.
  unfold count_nl. induction s as [|c t IH]; cbn [split_lines filter];
    [reflexivity|].
  rewrite (N.eqb_sym NL c). destruct (N.eqb c NL); cbn [length].
  - rewrite IH. reflexivity.
  - destruct (split_lines t); [discriminate IH|exact IH].
Qed.

Lemma split_lines_text_read (ls : list Edit) (rest : str) :
  Forall unedited ls ->
  split_lines (text_read ls ++ rest)
  = map original_text ls ++ split_lines rest.
Proof.
  induction 1 as [|e ls [_ He] _ IH]; [reflexivity|].
  unfold text_read in *. cbn [map concat app].
  rewrite <- !app_assoc. cbn [app].
  rewrite split_lines_nl by exact He. rewrite IH. reflexivity.
Qed.

Lemma split_lines_join (l : list str) :
  l <> [] -> Forall (fun x => ~ In NL x) l ->
  split_lines (join_lines l) = l.
Proof.
  intros Hne H. induction H as [|x l Hx Hl IH]; [congruence|].
  destruct l as [|y l].
  - apply split_lines_plain, Hx.
  - change (join_lines (x :: y :: l)) with (x ++ NL :: join_lines (y :: l)).
    rewrite split_lines_nl by exact Hx. rewrite IH by discriminate.
    reflexivity.
Qed.

(** The lines of an unedited walker are the first lines of its source. *)
Lemma pristine_split (content : str) (w : LineWalker) :
  pristine content w ->
  match file w with
  | Some rest =>
      split_lines content = map original_text (lines w) ++ split_lines rest
      /\ count_nl content = length (lines w) + count_nl rest
  | None => split_lines content = map original_text (lines w)
  end.
Proof.
  intros [Hu Hf]. destruct (file w) as [rest|].
  - subst content. split; [apply split_lines_text_read, Hu|].
    rewrite count_nl_app, count_nl_text_read by exact Hu. reflexivity.
  - destruct Hf as [Hne ->]. apply split_lines_join.
    + destruct (lines w); [congruence|discriminate].
    + apply Forall_map. eapply Forall_impl; [|exact Hu].
      intros e [_ H]. exact H.
Qed.

Lemma loaded_upto_step (content : str) (k : nat) (w : LineWalker) :
  loaded_upto content k w ->
  exists r w',
    _get_at_pos (Z.of_nat k) w = Ret r w' /\ loaded_upto content (S k) w'.
Proof.
  intros (Hp & Hc & Hfo & Hcb & Hlen).
  destruct (file w) as [s|] eqn:Hf.
  - assert (Hopen : file w <> None) by congruence.
    destruct (read_next_line_cases w s Hf)
      as [[Hs Hr]|(a & rest & -> & Ha & Hr)];
      pose proof (get_at_pull w _ _ Hopen Hr) as Hg; rewrite Hlen in Hg;
      eexists; eexists; (split; [exact Hg|]).
    + split; [apply pristine_final with (s := s); assumption|].
      split; [apply Forall_app; split; [exact Hc|repeat constructor]|].
      repeat split; try assumption. simpl. rewrite length_app. simpl. lia.
    + split; [apply pristine_more; assumption|].
      split; [apply Forall_app; split; [exact Hc|repeat constructor]|].
      repeat split; try assumption. simpl. rewrite length_app. simpl. lia.
  - exists None, w. split; [apply get_at_exhausted; [exact Hf|lia]|].
    unfold loaded_upto. rewrite Hf.
    repeat split; try assumption; try apply Hp; lia.
Qed.

Lemma materialize_loaded (content : str) (k : nat) :
  exists w, materialize k (init content) = Ret tt w
            /\ loaded_upto content k w.
Proof.
  induction k as [|k (w & Hm & Hl)].
  - exists (init content). split; [reflexivity|].
    repeat split; try constructor; reflexivity.
  - destruct (loaded_upto_step content k w Hl) as (r & w' & Hg & Hl').
    exists w'. split; [|exact Hl'].
    rewrite materialize_succ, Hm. unfold bind. rewrite Hg. reflexivity.
Qed.

(** X1: requesting positions [0 .. k-1] in order on a freshly opened
    walker never fails and materializes exactly the first [k] lines of the
    source text (all of them if there are fewer): [original_text] is the
    raw line, [edit_text] its tab expansion, the cursor is at 0, and the
    source is closed exactly when the last line has been read. *)
Theorem materialize_first_lines (content : str) (k : nat) :
  exists w,
    materialize k (init content) = Ret tt w
    /\ map original_text (lines w) = firstn k (split_lines content)
    /\ map edit_text (lines w)
       = map expandtabs (firstn k (split_lines content))
    /\ Forall (fun e => edit_pos e = 0) (lines w)
    /\ (file w = None <-> count_nl content < k).
Proof.
  destruct (materialize_loaded content k)
    as (w & Hm & Hp & Hc & _ & _ & Hlen).
  exists w. split; [exact Hm|].
  pose proof (pristine_split content w Hp) as Hs.
  assert (Ho : map original_text (lines w) = firstn k (split_lines content)
               /\ (file w = None <-> count_nl content < k)).
  { destruct (file w) as [rest|] eqn:Hf.
    - destruct Hs as [Hs Hn]. rewrite Hs. split.
      + rewrite <- Hlen, <- (length_map original_text).
        rewrite firstn_app, firstn_all, Nat.sub_diag. simpl.
        rewrite app_nil_r. reflexivity.
      + split; [discriminate|]. lia.
    - split.
      + rewrite Hs. symmetry. apply firstn_all2.
        rewrite length_map. exact Hlen.
      + split; [|reflexivity]. intros _.
        apply (f_equal (@length _)) in Hs.
        rewrite split_lines_length, length_map in Hs. lia. }
  destruct Ho as [Ho Hcl]. split; [exact Ho|].
  split; [|split; [exact Hc|exact Hcl]].
  rewrite <- Ho, map_map. destruct Hp as [Hu _]. clear - Hu.
  induction Hu as [|e ls [He _] _ IH]; [reflexivity|].
  cbn [map]. rewrite He, IH. reflexivity.
Qed.


(** *** The source is consumed forward *)

Section FileInvariant.
Variable P : option str -> Prop.
Hypothesis P_closed : P None.
Hypothesis P_read :
  forall a rest, ~ In NL a -> P (Some (a ++ NL :: rest)) -> P (Some rest).

Lemma file_inv_modify (f : LineWalker -> LineWalker) :
  (forall w, file (f w) = file w) ->
  keeps (fun w => P (file w)) (modify f).
Proof. intros Hf. apply keeps_modify. intros w H. rewrite Hf. exact H. Qed.

Lemma file_inv_read_next_line : keeps (fun w => P (file w)) read_next_line.
Proof.
  intros w H. destruct (file w) as [s|] eqn:Hf.
  - destruct (read_next_line_cases w s Hf)
      as [[_ ->]|(a & rest & -> & Ha & ->)]; simpl.
    + exact P_closed.
    + exact (P_read a rest Ha H).
  - rewrite read_next_line_closed by exact Hf. simpl. rewrite Hf. exact H.
Qed.

Lemma file_inv_get_at (pos : Z) : keeps (fun w => P (file w)) (_get_at_pos pos).
Proof.
  intros w H. destruct (get_at_state w pos) as [->|(_ & _ & ->)];
    [exact H|apply file_inv_read_next_line, H].
Qed.

Lemma file_inv_run (o : op) : keeps (fun w => P (file w)) (run o).
Proof.
  destruct o; unfold run, get_focus, get_next, get_prev, set_focus,
    split_focus, combine_focus_with_prev, combine_focus_with_next,
    get_coords, cut_to_clipboard, paste_from_clipboard, clear_clipboard,
    save_file, save_collect, index_lines, mutate_line, del_line, pop_line,
    insert_line, HighlightedEdit;
    repeat first
      [ apply file_inv_get_at | apply file_inv_read_next_line
      | apply keeps_save_rest
      | keeps_step
      | apply file_inv_modify; intros ?; reflexivity ].
Qed.

Lemma file_inv_after_all (ops : list op) (w : LineWalker) :
  P (file w) -> P (file (after_all ops w)).
Proof.
  revert w. induction ops as [|o ops IH]; intros w H; [exact H|].
  simpl. apply IH. apply (file_inv_run o w H).
Qed.
End FileInvariant.

(** X3: whatever operations run on a walker opened on [content], the
    source is only ever consumed forward and by whole lines: the unread
    text is what remains of [content] after some terminated lines. *)
Theorem source_consumed_by_lines (content : str) (ops : list op) :
  match file (after_all ops (init content)) with
  | Some rest =>
      exists ls, Forall (fun l => ~ In NL l) ls
                 /\ content = concat (map (fun l => l ++ [NL]) ls) ++ rest
  | None => True
  end.
Proof.
  apply (file_inv_after_all (unread_suffix content)).
  - exact I.
  - intros a rest Ha (ls & Hls & Hc). exists (ls ++ [a]). split.
    + apply Forall_app. split; [exact Hls|]. constructor; [exact Ha|constructor].
    + rewrite Hc, map_app, concat_app. simpl.
      rewrite <- !app_assoc. reflexivity.
  - exists []. split; [constructor|reflexivity].
Qed.

(* ------------------------------------------------------------------ *)
(** ** Saving again *)

Lemma save_rest_spec (n : nat) :
  forall (w : LineWalker) (l : list str),
    unread w <= n ->
    exists news w',
      save_rest l w = Ret (l ++ map original_text news) w'
      /\ lines w' = lines w ++ news
      /\ Forall unedited news
      /\ file w' = None
      /\ focus w' = focus w /\ clipboard w' = clipboard w.
Proof.
  induction n as [|n IH]; intros w l Hn; rewrite save_rest_eq.
  - unfold unread in Hn. destruct (file w) eqn:Hf; [lia|].
    exists [], w. rewrite !app_nil_r. repeat split; [constructor|exact Hf].
  - destruct (file w) as [s|] eqn:Hf.
    + destruct (read_next_line_cases w s Hf)
        as [[Hs ->]|(a & rest & -> & Ha & ->)].
      * rewrite save_rest_eq. simpl.
        exists [loaded (next_uid w) s], (appended None s w).
        repeat split. constructor; [|constructor].
        apply unedited_loaded, Hs.
      * pose proof (unread_appended_more w a rest Hf) as Hlt.
        assert (Hle : unread (appended (Some rest) a w) <= n)
          by (apply Nat.lt_succ_r; eapply Nat.lt_le_trans; eassumption).
        destruct (IH (appended (Some rest) a w) (l ++ [a]) Hle)
          as (news & w' & E & Hl & Hu & Hc & Hfo & Hcb).
        exists (loaded (next_uid w) a :: news), w'. cbv beta iota.
        rewrite E, Hl. simpl. rewrite <- !app_assoc. repeat split; auto.
        constructor; [apply unedited_loaded, Ha|exact Hu].
    + exists [], w. rewrite !app_nil_r. repeat split; [constructor|exact Hf].
Qed.



(* ------------------------------------------------------------------ *)
(** ** Joining at the ends of the buffer *)

(** X5: with the focus on the first line, [combine_focus_with_prev] does
    nothing: no line is read, joined or deleted and the focus stays. *)
Theorem combine_prev_at_top (w : LineWalker) :
  (focus w <= 0)%Z -> combine_focus_with_prev w = Ret tt w.
Proof.
  intros H. unfold combine_focus_with_prev, get_prev, bind, gets.
  rewrite get_at_negative by lia. reflexivity.
Qed.

Lemma combine_prev_at_top_witness :
  let w := mkWalker None [loaded 0 [97]%N; loaded 1 [98]%N] 0 None 2 in
  (focus w <= 0)%Z /\ combine_focus_with_prev w = Ret tt w.
Proof.
  intros w.
  assert (H : (focus w <= 0)%Z) by (simpl; lia).
  split; [exact H|]. exact (combine_prev_at_top w H).
Defined.

(** X6: once the source is exhausted, [combine_focus_with_next] on the
    last line (or beyond) does nothing. *)
Theorem combine_next_at_bottom (w : LineWalker) :
  file w = None ->
  (Z.of_nat (length (lines w)) <= focus w + 1)%Z ->
  combine_focus_with_next w = Ret tt w.
Proof.
  intros Hf H. unfold combine_focus_with_next, get_next, bind, gets.
  rewrite get_at_exhausted by assumption. reflexivity.
Qed.

Lemma combine_next_at_bottom_witness :
  let w := mkWalker None [loaded 0 [97]%N; loaded 1 [98]%N] 1 None 2 in
  file w = None
  /\ (Z.of_nat (length (lines w)) <= focus w + 1)%Z
  /\ combine_focus_with_next w = Ret tt w.
Proof.
  intros w.
  assert (H : (Z.of_nat (length (lines w)) <= focus w + 1)%Z)
    by (simpl; lia).
  split; [reflexivity|]. split; [exact H|].
  exact (combine_next_at_bottom w eq_refl H).
Defined.

Lemma combine_next_pull (f' : option str) (line : str) (w : LineWalker)
      (pre : list Edit) (e : Edit) :
  lines w = pre ++ [e] -> focus w = Z.of_nat (length pre) ->
  file w <> None ->
  read_next_line w = Ret line (appended f' line w) ->
  combine_focus_with_next w
  = Ret tt (mkWalker f'
              (pre ++ [set_edit_text (edit_text e ++ expandtabs line) e])
              (focus w) (clipboard w) (S (next_uid w))).
Proof.
  intros Hl Hfo Hopen Hr.
  pose proof (get_at_pull w line f' Hopen Hr) as Hg.
  destruct w as [f ls fo cb n]. simpl in Hl, Hfo, Hg |- *. subst ls fo.
  unfold combine_focus_with_next, get_next. mrun.
  rewrite length_app in Hg. simpl length in Hg.
  replace (Z.of_nat (length pre) + 1)%Z
    with (Z.of_nat (length pre + 1)) by lia.
  rewrite Hg. unfold appended. mrun.
  rewrite <- app_assoc. cbn [app].
  rewrite index_lines_rec. mrun.
  rewrite mutate_line_rec. mrun.
  change (edit_text (loaded n line)) with (expandtabs line).
  set (joined := set_edit_text (edit_text e ++ expandtabs line) e).
  replace (Z.of_nat (length pre + 1))
    with (Z.of_nat (length (pre ++ [joined])))
    by (rewrite length_app; reflexivity).
  rewrite (cons_snoc pre [loaded n line] joined).
  rewrite del_line_rec, app_nil_r. reflexivity.
Qed.

(** X7: with the focus on the last materialized line and the source still
    open, [combine_focus_with_next] pulls the next line from the source
    and joins its tab expansion onto the focused line. The number of
    materialized lines and the focus stay as they were; the source closes
    if that line was its last. *)
Theorem combine_next_pulls_line (w : LineWalker) (pre : list Edit)
        (e : Edit) (s : str) :
  lines w = pre ++ [e] -> focus w = Z.of_nat (length pre) ->
  file w = Some s ->
  exists line f',
    ((~ In NL s /\ line = s /\ f' = None)
     \/ (exists rest, s = line ++ NL :: rest /\ ~ In NL line
                      /\ f' = Some rest))
    /\ combine_focus_with_next w
       = Ret tt (mkWalker f'
                   (pre ++ [set_edit_text (edit_text e ++ expandtabs line) e])
                   (focus w) (clipboard w) (S (next_uid w))).
Proof.
  intros Hl Hfo Hf.
  assert (Hopen : file w <> None) by congruence.
  destruct (read_next_line_cases w s Hf)
    as [[Hs Hr]|(a & rest & -> & Ha & Hr)].
  - exists s, None. split; [left; auto|].
    apply combine_next_pull; assumption.
  - exists a, (Some rest). split; [right; exists rest; auto|].
    apply combine_next_pull; assumption.
Qed.

Lemma combine_next_pulls_line_witness :
  let w := state_of (_get_at_pos 0 (init [97; NL; TAB; 98; NL]%N)) in
  let e := loaded 0 [97]%N in
  let s := [TAB; 98; NL]%N in
  (lines w = [] ++ [e] /\ focus w = Z.of_nat (length (@nil Edit))
   /\ file w = Some s)
  /\ exists line f',
       ((~ In NL s /\ line = s /\ f' = None)
        \/ (exists rest, s = line ++ NL :: rest /\ ~ In NL line
                         /\ f' = Some rest))
       /\ combine_focus_with_next w
          = Ret tt (mkWalker f'
                      ([] ++ [set_edit_text (edit_text e ++ expandtabs line)
                                e])
                      (focus w) (clipboard w) (S (next_uid w))).
Proof.
  intros w e s. split; [repeat split|].
  exact (combine_next_pulls_line w [] e s eq_refl eq_refl eq_refl).
Defined.

(* ------------------------------------------------------------------ *)
(** ** Operations on a focus without a line *)

(** X8: when the focus addresses no line (an empty buffer, or a focus out
    of range), [split_focus] and [get_coords] raise [IndexError] and leave
    the walker as it was; [cut_to_clipboard] raises [IndexError] too, but
    has by then created the clipboard if there was none. *)
Theorem no_line_at_focus (w : LineWalker) :
  PyList.get (lines w) (focus w) = None ->
  split_focus w = Raise IndexError w
  /\ get_coords w = Raise IndexError w
  /\ cut_to_clipboard w
     = Raise IndexError
         (with_clipboard (Some (cb_list (clipboard w))) w).
Proof.
  intros H.
  assert (Hi : forall w', lines w' = lines w ->
                          index_lines (focus w) w' = Raise IndexError w').
  { intros w' E. unfold index_lines, bind, gets. rewrite E, H. reflexivity. }
  split; [|split].
  - unfold split_focus, bind at 1, gets at 1. unfold bind at 1.
    rewrite Hi by reflexivity. reflexivity.
  - unfold get_coords, bind at 1, gets at 1. unfold bind at 1.
    rewrite Hi by reflexivity. reflexivity.
  - assert (Hp : forall w', lines w' = lines w ->
                            pop_line (focus w) w' = Raise IndexError w').
    { intros w' E. unfold pop_line, bind, gets. rewrite E.
      unfold PyList.get in H. unfold PyList.pop.
      destruct (PyList.norm (length (lines w)) (focus w)); [|reflexivity].
      rewrite H. reflexivity. }
    unfold cut_to_clipboard, bind at 1, gets at 1.
    destruct w as [f ls fo [c|] n]; simpl in *; mrun;
      rewrite Hp by reflexivity; reflexivity.
Qed.

Lemma no_line_at_focus_witness :
  let w := mkWalker None [] (-1) None 1 in
  PyList.get (lines w) (focus w) = None
  /\ split_focus w = Raise IndexError w
  /\ get_coords w = Raise IndexError w
  /\ cut_to_clipboard w = Raise IndexError (mkWalker None [] (-1) (Some []) 1).
Proof.
  intros w. split; [reflexivity|].
  exact (no_line_at_focus w eq_refl).
Defined.

(* ------------------------------------------------------------------ *)
(** ** What is saved for split lines *)

Lemma emitted_synthesized (e : Edit) :
  original_text e = [] -> emitted e = edit_text e.
Proof.
  intros H. unfold emitted. rewrite H.
  destruct (edit_text e); reflexivity.
Qed.

Lemma firstn_short (t : str) (p : nat) :
  p < length t -> firstn p t <> t.
Proof.
  intros H E. apply (f_equal (@length _)) in E.
  rewrite length_firstn in E. lia.
Qed.

(** X9: [split_focus] on a focused line never fails and never reads the
    source. It replaces the line by two: the same widget, keeping its
    [original_text], with the text before the cursor, and a new widget
    with an empty [original_text], its cursor at 0, holding the text from
    the cursor on. Focus, clipboard and all other lines are untouched. *)
Theorem split_focus_halves (w : LineWalker) (e : Edit) :
  (0 <= focus w)%Z ->
  nth_error (lines w) (Z.to_nat (focus w)) = Some e ->
  exists pre post l r w',
    lines w = pre ++ e :: post
    /\ split_focus w = Ret tt w'
    /\ lines w' = pre ++ l :: r :: post
    /\ uid l = uid e /\ original_text l = original_text e
    /\ edit_text l = firstn (edit_pos e) (edit_text e)
    /\ original_text r = [] /\ edit_pos r = 0
    /\ edit_text r = skipn (edit_pos e) (edit_text e)
    /\ file w' = file w /\ focus w' = focus w
    /\ clipboard w' = clipboard w.
Proof.
  intros H0 Hn.
  destruct (focused_split w e H0 Hn) as (pre & post & Hl & Hf).
  destruct w as [f ls fo cb n]. simpl in Hl, Hf |- *. subst ls fo.
  exists pre, post, (split_left e), (split_right n e). eexists.
  split; [reflexivity|]. split; [apply split_focus_at|].
  repeat split.
Qed.

Lemma split_focus_halves_witness :
  let e := mkEdit 0 [97; 98]%N 1 [97; 98]%N in
  let w := mkWalker None [e] 0 None 1 in
  exists pre post l r w',
    lines w = pre ++ e :: post
    /\ split_focus w = Ret tt w'
    /\ lines w' = pre ++ l :: r :: post
    /\ uid l = uid e /\ original_text l = original_text e
    /\ edit_text l = firstn (edit_pos e) (edit_text e)
    /\ original_text r = [] /\ edit_pos r = 0
    /\ edit_text r = skipn (edit_pos e) (edit_text e)
    /\ file w' = file w /\ focus w' = focus w
    /\ clipboard w' = clipboard w.
Proof.
  intros e w.
  assert (H0 : (0 <= focus w)%Z) by (simpl; lia).
  exact (split_focus_halves w e H0 eq_refl).
Defined.

Lemma split_halves_emitted (e : Edit) (n : nat) :
  edit_text e = expandtabs (original_text e) ->
  edit_pos e < length (edit_text e) ->
  emitted (split_left e) = firstn (edit_pos e) (edit_text e)
  /\ emitted (split_right n e) = skipn (edit_pos e) (edit_text e).
Proof.
  intros He Hp. split; [|apply emitted_synthesized; reflexivity].
  unfold emitted, split_left. simpl.
  destruct (Str.eqb _ _) eqn:E; [|reflexivity].
  apply eqb_eq in E. rewrite <- He in E. symmetry in E.
  apply firstn_short in E; [contradiction|exact Hp].
Qed.

(** X10: saving after an unedited line was split inside its text writes, in
    the place of that line, the two halves of its displayed, tab-expanded
    text as two lines: the tabs of the original line are not written
    back. *)
Theorem split_line_saved (w : LineWalker) (e : Edit) :
  (0 <= focus w)%Z ->
  nth_error (lines w) (Z.to_nat (focus w)) = Some e ->
  edit_text e = expandtabs (original_text e) ->
  edit_pos e < length (edit_text e) ->
  exists pre post rest w',
    lines w = pre ++ e :: post
    /\ (split_focus ;; save_collect) w
       = Ret (map emitted pre
              ++ firstn (edit_pos e) (edit_text e)
              :: skipn (edit_pos e) (edit_text e)
              :: map emitted post ++ rest) w'.
Proof.
  intros H0 Hn He Hp.
  destruct (focused_split w e H0 Hn) as (pre & post & Hl & Hf).
  destruct w as [f ls fo cb n]. simpl in Hl, Hf |- *. subst ls fo.
  set (w1 := mkWalker f (pre ++ split_left e :: split_right n e :: post)
                      (Z.of_nat (length pre)) cb (S n)).
  destruct (save_rest_total (unread w1) w1 (map emitted (lines w1)) (le_n _))
    as (rest & w' & E & _).
  exists pre, post, rest, w'. split; [reflexivity|].
  unfold bind at 1. rewrite split_focus_at. fold w1.
  unfold save_collect, bind, gets. rewrite E. f_equal.
  subst w1. cbn [lines]. rewrite map_app. cbn [map].
  destruct (split_halves_emitted e n He Hp) as [-> ->].
  rewrite <- app_assoc. reflexivity.
Qed.

Lemma split_line_saved_witness :
  let e := mkEdit 0 (repeat SP 8 ++ [120; 121])%N 9 [TAB; 120; 121]%N in
  let w := mkWalker None [e] 0 None 1 in
  exists pre post rest w',
    lines w = pre ++ e :: post
    /\ (split_focus ;; save_collect) w
       = Ret (map emitted pre
              ++ firstn (edit_pos e) (edit_text e)
              :: skipn (edit_pos e) (edit_text e)
              :: map emitted post ++ rest) w'.
Proof.
  intros e w.
  assert (H0 : (0 <= focus w)%Z) by (simpl; lia).
  assert (Hp : edit_pos e < length (edit_text e)) by (simpl; lia).
  exact (split_line_saved w e H0 eq_refl eq_refl Hp).
Defined.

(* ------------------------------------------------------------------ *)
(** ** The clipboard with several lines *)

Lemma copies_text (n : nat) (cb : list Edit) :
  map edit_text (copies n cb) = map edit_text cb.
Proof. induction cb as [|c t IH]; simpl; [reflexivity|]. rewrite IH. reflexivity. Qed.

Lemma copies_length (n : nat) (cb : list Edit) :
  length (copies n cb) = length cb.
Proof. induction cb as [|c t IH]; simpl; [reflexivity|]. rewrite IH. reflexivity. Qed.

Lemma copies_synthesized (n : nat) (cb : list Edit) :
  Forall (fun e => original_text e = []) (copies n cb).
Proof. induction cb as [|c t IH]; simpl; constructor; [reflexivity|exact IH]. Qed.

(** The loop of [paste_from_clipboard]. *)
Lemma paste_loop (f : option str) (pre post : list Edit)
      (cb0 : option (list Edit)) (cb : list Edit) :
  forall n,
    for_each (rev cb)
      (fun line =>
         newline <- HighlightedEdit (edit_text line) ;;
         (let newline := set_original_text [] newline in
          fi <- gets focus ;; insert_line fi newline))
      (mkWalker f (pre ++ post) (Z.of_nat (length pre)) cb0 n)
    = Ret tt (mkWalker f (pre ++ copies n cb ++ post)
                       (Z.of_nat (length pre)) cb0 (n + length cb)).
Proof.
  induction cb as [|c t IH]; intros n.
  - simpl. rewrite Nat.add_0_r. reflexivity.
  - cbn [rev]. rewrite for_each_app, IH. cbn [for_each]. mrun.
    rewrite insert_line_rec. mrun. cbn [copies length].
    unfold pasted. do 2 f_equal. lia.
Qed.

Lemma paste_at (f : option str) (pre post cb : list Edit) (n : nat) :
  paste_from_clipboard
    (mkWalker f (pre ++ post) (Z.of_nat (length pre)) (Some cb) n)
  = Ret tt (mkWalker f (pre ++ copies n cb ++ post)
                     (Z.of_nat (length pre) + Z.of_nat (length cb))
                     (Some cb) (n + length cb)).
Proof.
  unfold paste_from_clipboard. unfold bind at 1, gets at 1.
  cbn [clipboard]. unfold bind at 1. rewrite paste_loop. mrun. reflexivity.
Qed.

(** X11: [paste_from_clipboard] never fails. With the focus on a line, or
    just past the last one, it inserts one new widget per clipboard line
    in front of the focused line, in clipboard order, each carrying the
    text of its clipboard line and an empty [original_text]. The focus
    moves down by the number of pasted lines, so it stays on the line it
    was on, and the clipboard is left as it was: pasting again inserts the
    same lines again. *)
Theorem paste_inserts_in_order (w : LineWalker) (pre post cb : list Edit) :
  lines w = pre ++ post -> focus w = Z.of_nat (length pre) ->
  clipboard w = Some cb ->
  exists new w',
    paste_from_clipboard w = Ret tt w'
    /\ lines w' = pre ++ new ++ post
    /\ map edit_text new = map edit_text cb
    /\ Forall (fun e => original_text e = []) new
    /\ focus w' = (focus w + Z.of_nat (length cb))%Z
    /\ clipboard w' = Some cb
    /\ file w' = file w.
Proof.
  intros Hl Hf Hc. destruct w as [f ls fo c n]. simpl in Hl, Hf, Hc |- *.
  subst ls fo c. exists (copies n cb). eexists.
  split; [apply paste_at|]. cbn [lines focus clipboard file].
  repeat split.
  - apply copies_text.
  - apply copies_synthesized.
Qed.

Lemma paste_inserts_in_order_witness :
  let a := loaded 0 [97]%N in
  let b := loaded 1 [98]%N in
  let c := loaded 2 [99]%N in
  let w := mkWalker None [c] 0 (Some [a; b]) 3 in
  exists new w',
    paste_from_clipboard w = Ret tt w'
    /\ lines w' = [] ++ new ++ [c]
    /\ map edit_text new = map edit_text [a; b]
    /\ Forall (fun e => original_text e = []) new
    /\ focus w' = (focus w + Z.of_nat (length [a; b]))%Z
    /\ clipboard w' = Some [a; b]
    /\ file w' = file w.
Proof.
  intros a b c w.
  exact (paste_inserts_in_order w [] [c] [a; b] eq_refl eq_refl eq_refl).
Defined.

Lemma cut_times_succ (k : nat) (w : LineWalker) :
  cut_times (S k) w
  = match cut_to_clipboard w with
    | Ret _ w' => cut_times k w'
    | Raise e w' => Raise e w'
    end.
Proof. reflexivity. Qed.

Lemma cut_run_at (f : option str) (pre post : list Edit) (n : nat)
      (mid : list Edit) :
  post <> [] ->
  forall cb,
    cut_times (length mid)
      (mkWalker f (pre ++ mid ++ post) (Z.of_nat (length pre)) cb n)
    = Ret tt (mkWalker f (pre ++ post) (Z.of_nat (length pre))
                (match mid with
                 | [] => cb
                 | _ => Some (cb_list cb ++ mid)
                 end) n).
Proof.
  intros Hpost. induction mid as [|e mid IH]; intros cb; [reflexivity|].
  cbn [length]. rewrite cut_times_succ. cbn [app]. rewrite cut_at.
  destruct (Z.eqb_spec (Z.of_nat (length pre))
              (Z.of_nat (length (pre ++ mid ++ post)))) as [E|_].
  { rewrite !length_app in E. destruct post; [congruence|].
    simpl in E. lia. }
  rewrite IH. f_equal. f_equal.
  change (match cb with Some c => c | None => [] end) with (cb_list cb).
  destruct mid; [reflexivity|]. cbn [cb_list].
  rewrite <- app_assoc. reflexivity.
Qed.

(** X12: cutting [k] times in a row with the focus on the first of [k]
    consecutive lines that are followed by at least one more line moves
    exactly these lines to the end of the clipboard, in their order; the
    focus stays where it was and now addresses the line that followed
    them. *)
Theorem cut_run (w : LineWalker) (pre mid post : list Edit) :
  lines w = pre ++ mid ++ post -> focus w = Z.of_nat (length pre) ->
  mid <> [] -> post <> [] ->
  exists w',
    cut_times (length mid) w = Ret tt w'
    /\ lines w' = pre ++ post
    /\ clipboard w' = Some (cb_list (clipboard w) ++ mid)
    /\ focus w' = focus w /\ file w' = file w.
Proof.
  intros Hl Hf Hm Hp. destruct w as [f ls fo c n]. simpl in Hl, Hf |- *.
  subst ls fo. eexists. split; [apply cut_run_at; exact Hp|].
  destruct mid; [congruence|]. repeat split.
Qed.

Lemma cut_run_witness :
  let a := loaded 0 [97]%N in
  let b := loaded 1 [98]%N in
  let c := loaded 2 [99]%N in
  let w := mkWalker None [a; b; c] 0 None 3 in
  exists w',
    cut_times 2 w = Ret tt w'
    /\ lines w' = [c]
    /\ clipboard w' = Some [a; b]
    /\ focus w' = focus w /\ file w' = file w.
Proof.
  intros a b c w.
  assert (Hm : [a; b] <> []) by discriminate.
  assert (Hp : [c] <> []) by discriminate.
  exact (cut_run w [] [a; b] [c] eq_refl eq_refl Hm Hp).
Defined.

(** X13: with no line on the clipboard, cutting [k] consecutive lines that
    are followed by at least one more line and then pasting once gives
    back a buffer with the same text on every line, with the focus on the
    line after the pasted ones. The pasted lines are new widgets with an
    empty [original_text]. *)
Theorem cut_run_then_paste (w : LineWalker) (pre mid post : list Edit) :
  lines w = pre ++ mid ++ post -> focus w = Z.of_nat (length pre) ->
  cb_list (clipboard w) = [] ->
  mid <> [] -> post <> [] ->
  exists new w',
    (cut_times (length mid) ;; paste_from_clipboard) w = Ret tt w'
    /\ lines w' = pre ++ new ++ post
    /\ map edit_text (lines w') = map edit_text (lines w)
    /\ Forall (fun e => original_text e = []) new
    /\ focus w' = (focus w + Z.of_nat (length mid))%Z
    /\ clipboard w' = Some mid.
Proof.
  intros Hl Hf Hc Hm Hp. destruct w as [f ls fo c n].
  simpl in Hl, Hf, Hc |- *. subst ls fo.
  exists (copies n mid). eexists. split.
  - unfold bind. rewrite cut_run_at by exact Hp.
    destruct mid as [|m mid]; [congruence|].
    rewrite Hc. cbn [app]. apply paste_at.
  - cbn [lines focus clipboard]. repeat split.
    + rewrite !map_app, copies_text. reflexivity.
    + apply copies_synthesized.
Qed.

Lemma cut_run_then_paste_witness :
  let a := loaded 0 [97]%N in
  let b := loaded 1 [98]%N in
  let c := loaded 2 [99]%N in
  let w := mkWalker None [a; b; c] 0 None 3 in
  exists new w',
    (cut_times 2 ;; paste_from_clipboard) w = Ret tt w'
    /\ lines w' = [] ++ new ++ [c]
    /\ map edit_text (lines w') = map edit_text (lines w)
    /\ Forall (fun e => original_text e = []) new
    /\ focus w' = (focus w + Z.of_nat 2)%Z
    /\ clipboard w' = Some [a; b].
Proof.
  intros a b c w.
  assert (Hm : [a; b] <> []) by discriminate.
  assert (Hp : [c] <> []) by discriminate.
  exact (cut_run_then_paste w [] [a; b] [c] eq_refl eq_refl eq_refl Hm Hp).
Defined.

(** X14: a line that is cut and pasted back is no longer written from its
    [original_text]: saving writes, in its place, the displayed text, so
    the tabs of an unedited line come back as spaces. *)
Theorem cut_paste_saved_expanded (w : LineWalker) (pre post : list Edit)
        (e : Edit) :
  lines w = pre ++ e :: post -> focus w = Z.of_nat (length pre) ->
  cb_list (clipboard w) = [] -> post <> [] ->
  exists rest w',
    (cut_to_clipboard ;; paste_from_clipboard ;; save_collect) w
    = Ret (map emitted pre ++ edit_text e :: map emitted post ++ rest) w'.
Proof.
  intros Hl Hf Hc Hp. destruct w as [f ls fo c n].
  simpl in Hl, Hf, Hc |- *. subst ls fo.
  pose proof (cut_run_at f pre post n [e] Hp c) as Hcut.
  cbn [length] in Hcut. rewrite cut_times_succ in Hcut. cbn [app] in Hcut.
  destruct (cut_to_clipboard _) as [[] w1|x w1] eqn:E1; [|discriminate Hcut].
  change (cut_times 0 w1) with (Ret tt w1) in Hcut.
  injection Hcut as ->. rewrite Hc in E1. cbn [app] in E1.
  set (w2 := mkWalker f (pre ++ copies n [e] ++ post)
                      (Z.of_nat (length pre) + Z.of_nat (length [e]))
                      (Some [e]) (n + length [e])).
  destruct (save_rest_total (unread w2) w2 (map emitted (lines w2)) (le_n _))
    as (rest & w' & E & _).
  exists rest, w'. unfold bind at 1. rewrite E1.
  unfold bind at 1. rewrite paste_at. fold w2.
  unfold save_collect, bind, gets. rewrite E. f_equal.
  subst w2. cbn [lines copies app]. rewrite map_app. cbn [map].
  rewrite emitted_synthesized by reflexivity.
  rewrite <- app_assoc. reflexivity.
Qed.

Lemma cut_paste_saved_expanded_witness :
  let e := loaded 0 [TAB; 120]%N in
  let c := loaded 1 [99]%N in
  let w := mkWalker None [e; c] 0 None 2 in
  emitted e = [TAB; 120]%N
  /\ exists rest w',
       (cut_to_clipboard ;; paste_from_clipboard ;; save_collect) w
       = Ret (map emitted [] ++ edit_text e :: map emitted [c] ++ rest) w'.
Proof.
  intros e c w. split; [reflexivity|].
  assert (Hp : [c] <> []) by discriminate.
  exact (cut_paste_saved_expanded w [] [c] e eq_refl eq_refl eq_refl Hp).
Defined.

(* ------------------------------------------------------------------ *)
(** ** The focus stays on a line *)

Lemma valid_focus_split (w : LineWalker) :
  valid_focus w ->
  exists pre e post,
    lines w = pre ++ e :: post /\ focus w = Z.of_nat (length pre).
Proof.
  intros [H0 H1].
  destruct (nth_error (lines w) (Z.to_nat (focus w))) as [e|] eqn:E.
  - destruct (focused_split w e H0 E) as (pre & post & Hl & Hf).
    exists pre, e, post. auto.
  - apply nth_error_None in E. lia.
Qed.

Lemma valid_focus_grow (w w' : LineWalker) :
  valid_focus w -> focus w' = focus w ->
  length (lines w) <= length (lines w') -> valid_focus w'.
Proof. unfold valid_focus. intros H -> Hl. lia. Qed.

Lemma read_next_line_grows (w : LineWalker) :
  focus (state_of (read_next_line w)) = focus w
  /\ length (lines w) <= length (lines (state_of (read_next_line w))).
Proof.
  destruct (file w) as [s|] eqn:Hf.
  - destruct (read_next_line_cases w s Hf)
      as [[_ ->]|(a & rest & _ & _ & ->)]; simpl;
      rewrite length_app; split; (reflexivity || lia).
  - rewrite read_next_line_closed by exact Hf. split; [reflexivity|apply le_n].
Qed.

Lemma get_at_grows (w : LineWalker) (pos : Z) :
  focus (state_of (_get_at_pos pos w)) = focus w
  /\ length (lines w) <= length (lines (state_of (_get_at_pos pos w))).
Proof.
  destruct (get_at_state w pos) as [->|(_ & _ & ->)];
    [split; [reflexivity|apply le_n]|apply read_next_line_grows].
Qed.

Lemma set_at_length (A : Type) (k : nat) (f : A -> A) (l : list A) :
  length (PyList.set_at k f l) = length l.
Proof.
  revert k. induction l as [|x l IH]; intros [|k]; simpl; try reflexivity.
  rewrite IH. reflexivity.
Qed.

Lemma mutate_line_grows (w : LineWalker) (i : Z) (f : Edit -> Edit) :
  focus (state_of (mutate_line i f w)) = focus w
  /\ length (lines w) <= length (lines (state_of (mutate_line i f w))).
Proof.
  unfold mutate_line, bind, gets.
  destruct (PyList.norm (length (lines w)) i); simpl;
    [rewrite set_at_length|]; split; (reflexivity || apply le_n).
Qed.

Lemma valid_after_combine_prev (w : LineWalker) :
  valid_focus w -> valid_focus (after Combine_focus_with_prev w).
Proof.
  intros Hv. destruct (valid_focus_split w Hv) as (pre & e & post & Hl & Hf).
  destruct w as [f ls fo cb n]. simpl in Hl, Hf. subst ls fo.
  unfold after, run.
  destruct pre as [|p pre0].
  - unfold combine_focus_with_prev, get_prev, bind, gets. simpl focus.
    rewrite get_at_negative by (simpl; lia). exact Hv.
  - assert (Hne : p :: pre0 <> []) by discriminate.
    destruct (@exists_last _ (p :: pre0) Hne) as (pre' & a & E).
    clear Hv. rewrite E. clear E Hne p pre0.
    rewrite <- app_assoc. cbn [app].
    replace (Z.of_nat (length (pre' ++ [a])))
      with (Z.of_nat (length pre') + 1)%Z
      by (rewrite length_app; simpl; lia).
    rewrite combine_prev_at. unfold valid_focus. simpl.
    rewrite length_app. simpl. lia.
Qed.

Lemma valid_after_combine_next (w : LineWalker) :
  valid_focus w -> valid_focus (after Combine_focus_with_next w).
Proof.
  intros Hv. destruct (valid_focus_split w Hv) as (pre & e & post & Hl & Hf).
  unfold after, run. destruct post as [|b post].
  - destruct (file w) as [s|] eqn:Hfile.
    + assert (Hopen : file w <> None) by congruence.
      destruct (read_next_line_cases w s Hfile)
        as [[_ Hr]|(a & rest & _ & _ & Hr)];
        rewrite (combine_next_pull _ _ w pre e Hl Hf Hopen Hr);
        unfold valid_focus; simpl; rewrite Hf, length_app; simpl; lia.
    + unfold combine_focus_with_next, get_next, bind, gets.
      rewrite get_at_exhausted;
        [exact Hv|exact Hfile|rewrite Hl, Hf, length_app; simpl; lia].
  - destruct w as [f ls fo cb n]. simpl in Hl, Hf. subst ls fo.
    rewrite combine_next_at. unfold valid_focus. simpl.
    rewrite length_app. simpl. lia.
Qed.

Lemma valid_after_cut (w : LineWalker) :
  valid_focus w -> 2 <= length (lines w) ->
  valid_focus (after Cut_to_clipboard w).
Proof.
  intros Hv H2. destruct (valid_focus_split w Hv) as (pre & e & post & Hl & Hf).
  destruct w as [f ls fo cb n]. simpl in Hl, Hf, H2. subst ls fo.
  unfold after, run. rewrite cut_at. unfold valid_focus. simpl.
  rewrite length_app in H2. simpl in H2.
  destruct (Z.eqb_spec (Z.of_nat (length pre))
              (Z.of_nat (length (pre ++ post)))) as [E|E];
    rewrite length_app in *; lia.
Qed.

Lemma valid_after_paste (w : LineWalker) :
  valid_focus w -> valid_focus (after Paste_from_clipboard w).
Proof.
  intros Hv. destruct (valid_focus_split w Hv) as (pre & e & post & Hl & Hf).
  destruct w as [f ls fo [cb|] n]; simpl in Hl, Hf; subst ls fo;
    unfold after, run; [|exact Hv].
  rewrite paste_at. unfold valid_focus. simpl.
  rewrite !length_app, copies_length. simpl. lia.
Qed.

Lemma valid_after_split (w : LineWalker) :
  valid_focus w -> valid_focus (after Split_focus w).
Proof.
  intros Hv. destruct (valid_focus_split w Hv) as (pre & e & post & Hl & Hf).
  destruct w as [f ls fo cb n]. simpl in Hl, Hf. subst ls fo.
  unfold after, run. rewrite split_focus_at. unfold valid_focus. simpl.
  rewrite length_app. simpl. lia.
Qed.

Lemma valid_after_save (w : LineWalker) :
  valid_focus w -> valid_focus (after Save_file w).
Proof.
  intros Hv. unfold after, run.
  destruct (save_rest_spec (unread w) w (map emitted (lines w)) (le_n _))
    as (news & w1 & E & Hl & _ & _ & Hfo & _).
  unfold save_file, save_collect, bind, gets. rewrite E. simpl.
  apply (valid_focus_grow w); [exact Hv|exact Hfo|].
  rewrite Hl, length_app. lia.
Qed.

Lemma valid_get_coords (w : LineWalker) :
  valid_focus w ->
  exists row col,
    get_coords w = Ret (row, col) w
    /\ (1 <= row <= Z.of_nat (length (lines w)))%Z /\ (1 <= col)%Z.
Proof.
  intros Hv. destruct (valid_focus_split w Hv) as (pre & e & post & Hl & Hf).
  exists (focus w + 1)%Z, (Z.of_nat (edit_pos e + 1)).
  split; [|unfold valid_focus in Hv; lia].
  unfold get_coords, bind, gets.
  rewrite (index_lines_at w pre post (focus w) Hf e Hl). reflexivity.
Qed.

(** X15: the focus stays on a line. If the focus addresses a line, it
    still does after any operation, provided a focus move goes to a
    materialized line and a cut is not applied to the only line; the
    coordinates shown in the footer can then be computed, and both are at
    least 1. *)
Theorem focus_stays_on_line (o : op) (w : LineWalker) :
  valid_focus w -> keeps_focus_on_line o w ->
  valid_focus (after o w)
  /\ exists row col,
       get_coords (after o w) = Ret (row, col) (after o w)
       /\ (1 <= row <= Z.of_nat (length (lines (after o w))))%Z
       /\ (1 <= col)%Z.
Proof.
  intros Hv Ho.
  assert (H : valid_focus (after o w)).
  { destruct o; unfold keeps_focus_on_line in Ho.
    - unfold after, run, get_focus. rewrite state_of_then_ret.
      unfold bind, gets. destruct (get_at_grows w (focus w)) as [Hf Hl].
      destruct (_get_at_pos (focus w) w); simpl in *;
        apply (valid_focus_grow w); assumption.
    - unfold after, run, set_focus, modify, valid_focus. simpl. exact Ho.
    - unfold after, run, get_next. rewrite state_of_then_ret.
      destruct (get_at_grows w (start_from + 1)) as [Hf Hl].
      apply (valid_focus_grow w); assumption.
    - unfold after, run, get_prev. rewrite state_of_then_ret.
      destruct (get_at_grows w (start_from - 1)) as [Hf Hl].
      apply (valid_focus_grow w); assumption.
    - unfold after, run. rewrite state_of_then_ret.
      destruct (get_at_grows w position) as [Hf Hl].
      apply (valid_focus_grow w); assumption.
    - unfold after, run. rewrite state_of_then_ret.
      destruct (read_next_line_grows w) as [Hf Hl].
      apply (valid_focus_grow w); assumption.
    - apply valid_after_split, Hv.
    - apply valid_after_combine_prev, Hv.
    - apply valid_after_combine_next, Hv.
    - unfold after, run. rewrite state_of_then_ret.
      destruct (valid_get_coords w Hv) as (row & col & -> & _). exact Hv.
    - apply valid_after_cut; assumption.
    - apply valid_after_paste, Hv.
    - exact Hv.
    - apply valid_after_save, Hv.
    - unfold after, run.
      destruct (mutate_line_grows w i (set_edit_text t)) as [Hf Hl].
      apply (valid_focus_grow w); assumption.
    - unfold after, run.
      destruct (mutate_line_grows w i (set_edit_pos p)) as [Hf Hl].
      apply (valid_focus_grow w); assumption. }
  split; [exact H|apply valid_get_coords, H].
Qed.

Lemma focus_stays_on_line_witness :
  let w := mkWalker (Some [99]%N) [loaded 0 [97]%N; loaded 1 [98]%N] 1
                    None 2 in
  (valid_focus w /\ keeps_focus_on_line Cut_to_clipboard w)
  /\ valid_focus (after Cut_to_clipboard w)
  /\ exists row col,
       get_coords (after Cut_to_clipboard w)
       = Ret (row, col) (after Cut_to_clipboard w)
       /\ (1 <= row <= Z.of_nat (length (lines (after Cut_to_clipboard w))))%Z
       /\ (1 <= col)%Z.
Proof.
  intros w.
  assert (Hv : valid_focus w) by (unfold valid_focus; simpl; lia).
  assert (Ho : keeps_focus_on_line Cut_to_clipboard w) by (simpl; lia).
  split; [split; [exact Hv|exact Ho]|].
  exact (focus_stays_on_line Cut_to_clipboard w Hv Ho).
Defined.

(* ------------------------------------------------------------------ *)
(** ** [re_tab] on arbitrary text *)

Lemma stops_short (n : nat) : n <= 8 -> py_range 8 n 8 = [].
Proof.
  intros H. rewrite py_range_stops.
  rewrite Nat.div_small by lia. reflexivity.
Qed.

(** X16: [re_tab] returns its argument unchanged when no tab stop inside
    it is preceded by two spaces; in particular a text of at most 8
    characters, blank or not, is never changed. *)
Theorem re_tab_unchanged (s : str) :
  length s <= 8 \/ no_false_stop s = true -> re_tab s = s.
Proof.
  intros H. unfold re_tab.
  assert (E : re_tab_loop s (py_range 8 (length s) 8) ([], 0) = ([], 0)).
  { destruct H as [H|H].
    - rewrite stops_short by exact H. reflexivity.
    - apply loop_idle. intros i Hi. unfold no_false_stop in H.
      rewrite forallb_forall in H. apply negb_true_iff. apply H, Hi. }
  rewrite E. reflexivity.
Qed.

Lemma re_tab_unchanged_witness :
  (length (repeat SP 8) <= 8 \/ no_false_stop (repeat SP 8) = true)
  /\ re_tab (repeat SP 8) = repeat SP 8.
Proof.
  assert (H : length (repeat SP 8) <= 8 \/ no_false_stop (repeat SP 8) = true)
    by (left; simpl; lia).
  split; [exact H|]. exact (re_tab_unchanged (repeat SP 8) H).
Defined.

Lemma rstrip_length (t : str) : length (rstrip t) <= length t.
Proof.
  induction t as [|c t IH]; [apply le_n|].
  cbn [rstrip]. destruct (rstrip t) as [|d r].
  - destruct (isspace c); simpl; lia.
  - simpl in *. lia.
Qed.

Lemma slice_length (s : str) (a b : nat) :
  b <= length s -> length (slice s a b) = b - a.
Proof.
  intros H. unfold slice. rewrite length_firstn, length_skipn. lia.
Qed.

Lemma firstn_plus (A : Type) (k1 k2 : nat) :
  forall l : list A,
    firstn (k1 + k2) l = firstn k1 l ++ firstn k2 (skipn k1 l).
Proof.
  induction k1 as [|k1 IH]; intros l; [reflexivity|].
  destruct l as [|x l]; simpl.
  - rewrite firstn_nil. reflexivity.
  - rewrite IH. reflexivity.
Qed.

Lemma slice_split (s : str) (a m b : nat) :
  a <= m -> m <= b -> slice s a b = slice s a m ++ slice s m b.
Proof.
  intros Ham Hmb. unfold slice.
  replace (b - a) with ((m - a) + (b - m)) by lia.
  rewrite firstn_plus. f_equal. rewrite skipn_skipn.
  replace (m - a + a) with m by lia. reflexivity.
Qed.

(** A collapsed window is shorter than the window. *)
Lemma window_shrinks (s : str) (p i : nat) :
  p + 2 <= i -> i <= length s ->
  slice s (i - 2) i = [SP; SP] ->
  length (rstrip (slice s p i) ++ [TAB]) < i - p.
Proof.
  intros Hp Hi H. rewrite (slice_split s p (i - 2) i) by lia.
  rewrite H, rstrip_app. change (rstrip [SP; SP]) with (@nil N).
  rewrite length_app. simpl length.
  pose proof (rstrip_length (slice s p (i - 2))) as Hr.
  rewrite slice_length in Hr by lia. lia.
Qed.

Lemma loop_length (s : str) (m : nat) :
  forall q l p,
    p <= q -> q + 8 * m <= length s -> length (concat l) <= p ->
    length (concat (fst (re_tab_loop s (stops q m) (l, p))))
    <= snd (re_tab_loop s (stops q m) (l, p))
    /\ snd (re_tab_loop s (stops q m) (l, p)) <= q + 8 * m.
Proof.
  induction m as [|m IH]; intros q l p Hpq Hq Hl.
  - simpl. lia.
  - cbn [stops]. unfold re_tab_loop in *. cbn [fold_left re_tab_step].
    destruct (Str.eqb (slice s (q + 8 - 2) (q + 8)) [SP; SP]) eqn:E.
    + apply eqb_eq in E.
      pose proof (window_shrinks s p (q + 8) ltac:(lia) ltac:(lia) E) as Hw.
      destruct (IH (q + 8) (l ++ [rstrip (slice s p (q + 8)) ++ [TAB]])
                   (q + 8)) as [H1 H2]; [lia|lia| |].
      * rewrite concat_snoc, length_app. lia.
      * split; [exact H1|lia].
    + destruct (IH (q + 8) l p) as [H1 H2]; [lia|lia|exact Hl|].
      split; [exact H1|lia].
Qed.

(** X17: [re_tab] never makes a text longer. *)
Theorem re_tab_not_longer (s : str) : length (re_tab s) <= length s.
Proof.
  unfold re_tab. rewrite py_range_stops.
  pose proof (Nat.Div0.mul_div_le (length s - 1) 8) as Hd.
  destruct (loop_length s ((length s - 1) / 8) 0 [] 0) as [H1 H2];
    [apply le_n|lia|apply Nat.le_0_l|].
  destruct (re_tab_loop s (stops 0 ((length s - 1) / 8)) ([], 0))
    as [l p]. cbn [fst snd] in H1, H2.
  destruct (Nat.eqb p 0); [apply le_n|].
  rewrite concat_snoc, length_app, length_skipn. lia.
Qed.

(* ------------------------------------------------------------------ *)
(** ** Highlighting spans *)

(** X18: [get_text] returns the edit text itself and one span per lexer
    token, in the lexer's order and with the lexer's token types; the
    span lengths add up to the total length of the token texts. *)
Theorem get_text_spans (token : Type) (get_tokens : str -> list (token * str))
        (e : Edit) :
  fst (get_text token get_tokens e) = edit_text e
  /\ map fst (snd (get_text token get_tokens e))
     = map fst (get_tokens (edit_text e))
  /\ list_sum (map snd (snd (get_text token get_tokens e)))
     = length (concat (map snd (get_tokens (edit_text e)))).
Proof.
  unfold get_text. cbn [fst snd]. split; [reflexivity|].
  rewrite !map_map. cbn [fst snd]. split; [reflexivity|].
  induction (get_tokens (edit_text e)) as [|[t s] l IH]; [reflexivity|].
  cbn [map snd concat]. rewrite length_app, <- IH. reflexivity.
Qed.

(* ------------------------------------------------------------------ *)
(** ** What a request returns *)


(* ------------------------------------------------------------------ *)
(** ** Joining two materialized lines *)

(** X20: with the focus on a line that has a line above it,
    [combine_focus_with_prev] appends the focused text to the line
    above, which keeps its identity and [original_text] and gets its
    cursor at the join point; the focused widget is removed and the focus
    moves up by one. Nothing is read from the source. *)
Theorem combine_prev_joins (w : LineWalker) (pre post : list Edit)
        (a b : Edit) :
  lines w = pre ++ a :: b :: post ->
  focus w = (Z.of_nat (length pre) + 1)%Z ->
  exists j w',
    combine_focus_with_prev w = Ret tt w'
    /\ lines w' = pre ++ j :: post
    /\ edit_text j = edit_text a ++ edit_text b
    /\ edit_pos j = length (edit_text a)
    /\ uid j = uid a /\ original_text j = original_text a
    /\ focus w' = (focus w - 1)%Z
    /\ file w' = file w /\ clipboard w' = clipboard w.
Proof.
  intros Hl Hf. destruct w as [f ls fo cb n]. simpl in Hl, Hf |- *.
  subst ls fo. eexists. eexists. split; [apply combine_prev_at|].
  cbn [lines focus file clipboard]. repeat split.
  - cbn [edit_pos set_edit_text set_edit_pos edit_text].
    rewrite length_app. lia.
  - lia.
Qed.

Lemma combine_prev_joins_witness :
  let a := loaded 0 [97]%N in
  let b := loaded 1 [98; 99]%N in
  let w := mkWalker None [a; b] 1 None 2 in
  exists j w',
    combine_focus_with_prev w = Ret tt w'
    /\ lines w' = [] ++ j :: []
    /\ edit_text j = edit_text a ++ edit_text b
    /\ edit_pos j = length (edit_text a)
    /\ uid j = uid a /\ original_text j = original_text a
    /\ focus w' = (focus w - 1)%Z
    /\ file w' = file w /\ clipboard w' = clipboard w.
Proof.
  intros a b w.
  exact (combine_prev_joins w [] [] a b eq_refl eq_refl).
Defined.

(** X21: with a materialized line below the focused one,
    [combine_focus_with_next] appends that line's text to the focused
    line and removes it; the focus and the cursor of the focused line
    stay where they were, and nothing is read from the source. *)
Theorem combine_next_joins (w : LineWalker) (pre post : list Edit)
        (a b : Edit) :
  lines w = pre ++ a :: b :: post ->
  focus w = Z.of_nat (length pre) ->
  edit_pos a <= length (edit_text a) ->
  exists j w',
    combine_focus_with_next w = Ret tt w'
    /\ lines w' = pre ++ j :: post
    /\ edit_text j = edit_text a ++ edit_text b
    /\ edit_pos j = edit_pos a
    /\ uid j = uid a /\ original_text j = original_text a
    /\ focus w' = focus w
    /\ file w' = file w /\ clipboard w' = clipboard w.
Proof.
  intros Hl Hf Hp. destruct w as [f ls fo cb n]. simpl in Hl, Hf |- *.
  subst ls fo. eexists. eexists. split; [apply combine_next_at|].
  cbn [lines focus file clipboard]. repeat split.
  cbn [edit_pos set_edit_text]. rewrite length_app. lia.
Qed.

Lemma combine_next_joins_witness :
  let a := loaded 0 [97]%N in
  let b := loaded 1 [98; 99]%N in
  let w := mkWalker None [a; b] 0 None 2 in
  exists j w',
    combine_focus_with_next w = Ret tt w'
    /\ lines w' = [] ++ j :: []
    /\ edit_text j = edit_text a ++ edit_text b
    /\ edit_pos j = edit_pos a
    /\ uid j = uid a /\ original_text j = original_text a
    /\ focus w' = focus w
    /\ file w' = file w /\ clipboard w' = clipboard w.
Proof.
  intros a b w.
  assert (Hp : edit_pos a <= length (edit_text a)) by (simpl; lia).
  exact (combine_next_joins w [] [] a b eq_refl eq_refl Hp).
Defined.

(** X22: saving after an unedited line was joined with a non-empty line
    below it writes one line in their place, the concatenation of the two
    displayed texts: the tabs of both lines come back as spaces. *)
Theorem joined_line_saved (w : LineWalker) (pre post : list Edit)
        (a b : Edit) :
  lines w = pre ++ a :: b :: post ->
  focus w = Z.of_nat (length pre) ->
  edit_text a = expandtabs (original_text a) ->
  edit_text b <> [] ->
  exists rest w',
    (combine_focus_with_next ;; save_collect) w
    = Ret (map emitted pre ++ (edit_text a ++ edit_text b)
           :: map emitted post ++ rest) w'.
Proof.
  intros Hl Hf Ha Hb. destruct w as [f ls fo cb n]. simpl in Hl, Hf |- *.
  subst ls fo.
  set (j := set_edit_text (edit_text a ++ edit_text b) a).
  set (w1 := mkWalker f (pre ++ j :: post) (Z.of_nat (length pre)) cb n).
  destruct (save_rest_total (unread w1) w1 (map emitted (lines w1)) (le_n _))
    as (rest & w' & E & _).
  exists rest, w'. unfold bind at 1. rewrite combine_next_at.
  fold j. fold w1. unfold save_collect, bind, gets. rewrite E. f_equal.
  subst w1. cbn [lines]. rewrite map_app. cbn [map].
  rewrite <- app_assoc. cbn [app]. do 2 f_equal.
  unfold emitted, j. cbn [original_text edit_text set_edit_text].
  destruct (Str.eqb _ _) eqn:Eq; [|reflexivity].
  apply eqb_eq in Eq. rewrite <- Ha in Eq.
  apply (f_equal (@length _)) in Eq. rewrite length_app in Eq.
  destruct (edit_text b); [congruence|simpl in Eq; lia].
Qed.

Lemma joined_line_saved_witness :
  let a := loaded 0 [TAB; 97]%N in
  let b := loaded 1 [98]%N in
  let w := mkWalker None [a; b] 0 None 2 in
  exists rest w',
    (combine_focus_with_next ;; save_collect) w
    = Ret (map emitted [] ++ (edit_text a ++ edit_text b)
           :: map emitted [] ++ rest) w'.
Proof.
  intros a b w.
  assert (Hb : edit_text b <> []) by discriminate.
  exact (joined_line_saved w [] [] a b eq_refl eq_refl eq_refl Hb).
Defined.

(* ------------------------------------------------------------------ *)
(** ** Clearing the clipboard *)

(** X23: [clear_clipboard] discards whatever the clipboard holds and
    nothing else. Pasting right after it does nothing, and a cut after it
    starts a new clipboard that holds only the cut line, so that clearing,
    cutting a line that has a line after it and pasting gives back the
    text of every line, whatever was on the clipboard before. *)
Theorem clear_then_cut_paste (w : LineWalker) (pre post : list Edit)
        (e : Edit) :
  lines w = pre ++ e :: post -> focus w = Z.of_nat (length pre) ->
  post <> [] ->
  (clear_clipboard ;; paste_from_clipboard) w
  = Ret tt (with_clipboard None w)
  /\ exists w',
       (clear_clipboard ;; cut_to_clipboard ;; paste_from_clipboard) w
       = Ret tt w'
       /\ map edit_text (lines w') = map edit_text (lines w)
       /\ clipboard w' = Some [e]
       /\ focus w' = (focus w + 1)%Z.
Proof.
  intros Hl Hf Hp. split; [reflexivity|].
  destruct w as [f ls fo cb n]. simpl in Hl, Hf |- *. subst ls fo.
  pose proof (cut_run_at f pre post n [e] Hp None) as Hcut.
  cbn [length] in Hcut. rewrite cut_times_succ in Hcut. cbn [app] in Hcut.
  destruct (cut_to_clipboard _) as [[] w1|x w1] eqn:E1; [|discriminate Hcut].
  change (cut_times 0 w1) with (Ret tt w1) in Hcut.
  injection Hcut as ->. cbn [cb_list app] in E1.
  eexists. split.
  - unfold bind at 1. unfold clear_clipboard, modify. cbv [with_clipboard].
    cbn [file lines focus clipboard next_uid].
    unfold bind at 1. rewrite E1. apply paste_at.
  - cbn [lines clipboard focus copies app length]. repeat split.
    rewrite !map_app. reflexivity.
Qed.

Lemma clear_then_cut_paste_witness :
  let a := loaded 1 [97]%N in
  let b := loaded 2 [98]%N in
  let w := mkWalker None [a; b] 0 (Some [loaded 0 [99]%N]) 3 in
  (clear_clipboard ;; paste_from_clipboard) w
  = Ret tt (with_clipboard None w)
  /\ exists w',
       (clear_clipboard ;; cut_to_clipboard ;; paste_from_clipboard) w
       = Ret tt w'
       /\ map edit_text (lines w') = map edit_text (lines w)
       /\ clipboard w' = Some [a]
       /\ focus w' = (focus w + 1)%Z.
Proof.
  intros a b w.
  assert (Hp : [b] <> []) by discriminate.
  exact (clear_then_cut_paste w [] [b] a eq_refl eq_refl Hp).
Defined.
